(** * LMS-real-estate: calendar connector, scheduling form, disconnect
      endpoint and lead list

    A shallow embedding of
    - [src/lib/googleCalendar.ts]          (class [GoogleCalendarService]),
    - [src/components/communication/CalendarEventModal.tsx],
    - the disconnect route handler          ([POST]),
    - the lead list page                    ([filteredAndSortedLeads]),
    followed by the properties of the specification that concern them.

    Everything the browser, the vendor SDK and the JS runtime decide
    (script loading, OAuth popups, provider answers, the clock, the local
    time zone, [localeCompare], [toLowerCase], [jwt.verify]) is an oracle:
    a field of [Env] or a section variable, over which every theorem
    quantifies. *)

From Stdlib Require Import ZArith List String Ascii Bool Lia Permutation Sorted.
From Stdlib Require Import DecimalString.
Import ListNotations.
Local Open Scope string_scope.
Local Open Scope Z_scope.

(* ===================================================================== *)
(** * JavaScript [Date]: the fragment the form uses                      *)
(* ===================================================================== *)

Module JsDate.

(** A time value: milliseconds since the epoch, [None] for NaN
    (an "Invalid Date"). *)
Definition t := option Z.

Definition msPerMinute : Z := 60000.
Definition msPerDay : Z := 86400000.

(** Day number -> (year, month 1..12, day 1..31), proleptic Gregorian. *)
Definition civil_from_days (z0 : Z) : Z * Z * Z :=
  let z := z0 + 719468 in
  let era := z / 146097 in
  let doe := z - era * 146097 in
  let yoe := (doe - doe / 1460 + doe / 36524 - doe / 146096) / 365 in
  let y := yoe + era * 400 in
  let doy := doe - (365 * yoe + yoe / 4 - yoe / 100) in
  let mp := (5 * doy + 2) / 153 in
  let d := doy - (153 * mp + 2) / 5 + 1 in
  let m := if mp <? 10 then mp + 3 else mp - 9 in
  (if m <=? 2 then y + 1 else y, m, d).

(** (year, month, day) -> day number. *)
Definition days_from_civil (y0 m d : Z) : Z :=
  let y := if m <=? 2 then y0 - 1 else y0 in
  let era := y / 400 in
  let yoe := y - era * 400 in
  let doy := (153 * (if 2 <? m then m - 3 else m + 9) + 2) / 5 + d - 1 in
  let doe := yoe * 365 + yoe / 4 - yoe / 100 + doy in
  era * 146097 + doe - 719468.

Definition isLeap (y : Z) : bool :=
  ((y mod 4 =? 0) && negb (y mod 100 =? 0)) || (y mod 400 =? 0).

Definition daysInMonth (y m : Z) : Z :=
  if m =? 2 then (if isLeap y then 29 else 28)
  else if (m =? 4) || (m =? 6) || (m =? 9) || (m =? 11) then 30 else 31.

(** ** Printing *)

Definition digit (d : Z) : ascii := ascii_of_nat (48 + Z.to_nat (d mod 10)).

Definition pad2 (n : Z) : string :=
  String (digit (n / 10)) (String (digit n) EmptyString).

Definition pad3 (n : Z) : string := String (digit (n / 100)) (pad2 n).

Definition pad4 (n : Z) : string := String (digit (n / 1000)) (pad3 n).

Definition pad6 (n : Z) : string :=
  String (digit (n / 100000)) (String (digit (n / 10000)) (pad4 n)).

(** The year of [toISOString]: four digits for 0..9999, otherwise the
    expanded form with a sign and six digits. *)
Definition isoYear (y : Z) : string :=
  if (0 <=? y) && (y <=? 9999) then pad4 y
  else if y <? 0 then "-" ++ pad6 (- y) else "+" ++ pad6 y.

Definition isoDate (ms : Z) : string :=
  let '(y, m, d) := civil_from_days (ms / msPerDay) in
  isoYear y ++ "-" ++ pad2 m ++ "-" ++ pad2 d.

Definition clock (msOfDay : Z) : string :=
  pad2 (msOfDay / 3600000) ++ ":" ++ pad2 (msOfDay / 60000 mod 60) ++ ":"
    ++ pad2 (msOfDay / 1000 mod 60).

(** [Date.prototype.toISOString]: always UTC; throws a RangeError on an
    Invalid Date ([None] here). *)
Definition isoString (ms : Z) : string :=
  isoDate ms ++ "T" ++ clock (ms mod msPerDay) ++ "." ++ pad3 (ms mod 1000) ++ "Z".

Definition toISOString (d : t) : option string :=
  match d with
  | None => None
  | Some ms => Some (isoString ms)
  end.

(** The "GMT+hhmm" part of [toTimeString], from an offset in milliseconds. *)
Definition gmtOffset (tza : Z) : string :=
  let a := Z.abs tza / msPerMinute in
  "GMT" ++ (if tza <? 0 then "-" else "+") ++ pad2 (a / 60) ++ pad2 (a mod 60).

(** [Date.prototype.toTimeString]: the time of day in the LOCAL zone.
    [tza] is the zone's offset from UTC at that instant, [suffix] the
    engine's zone name in parentheses. *)
Definition toTimeString (tza : Z) (suffix : string) (d : t) : string :=
  match d with
  | None => "Invalid Date"
  | Some ms =>
      clock ((ms + tza) mod msPerDay) ++ " " ++ gmtOffset tza ++ suffix
  end.

(** ** Parsing *)

Definition digitVal (c : ascii) : option Z :=
  let n := Z.of_nat (nat_of_ascii c) in
  if (48 <=? n) && (n <=? 57) then Some (n - 48) else None.

(** Reads exactly [n] decimal digits off the front of [s]. *)
Fixpoint digits (n : nat) (acc : Z) (s : string) : option (Z * string) :=
  match n with
  | O => Some (acc, s)
  | S n' =>
      match s with
      | String c rest =>
          match digitVal c with
          | Some v => digits n' (10 * acc + v) rest
          | None => None
          end
      | EmptyString => None
      end
  end.

Definition expect (c : ascii) (s : string) : option string :=
  match s with
  | String c' rest => if Ascii.eqb c c' then Some rest else None
  | EmptyString => None
  end.

(** The local date-time form [YYYY-MM-DDTHH:mm] with every field in
    range: (year, month, day, hour, minute). *)
Definition parseLocalDateTime (s : string) : option (Z * Z * Z * Z * Z) :=
  match digits 4 0 s with
  | None => None
  | Some (y, s1) =>
  match expect "-" s1 with None => None | Some s2 =>
  match digits 2 0 s2 with None => None | Some (m, s3) =>
  match expect "-" s3 with None => None | Some s4 =>
  match digits 2 0 s4 with None => None | Some (d, s5) =>
  match expect "T" s5 with None => None | Some s6 =>
  match digits 2 0 s6 with None => None | Some (hh, s7) =>
  match expect ":" s7 with None => None | Some s8 =>
  match digits 2 0 s8 with None => None | Some (mm, s9) =>
    match s9 with
    | EmptyString =>
        if (1 <=? m) && (m <=? 12) && (1 <=? d) && (d <=? daysInMonth y m)
           && (hh <=? 23) && (mm <=? 59)
        then Some (y, m, d, hh, mm) else None
    | _ => None
    end
  end end end end end end end end end.

(** [new Date(string)].  A string in the form above is read as LOCAL
    time: the instant is the local time minus the zone's offset
    [tzaLocal] at that local time.  Every other string (seconds, an
    explicit offset, out-of-range fields, garbage) is left to the
    engine: [fallback]. *)
Definition parse (tzaLocal : Z -> Z) (fallback : string -> t) (s : string) : t :=
  match parseLocalDateTime s with
  | Some (y, m, d, hh, mm) =>
      let local := days_from_civil y m d * msPerDay
                   + hh * 3600000 + mm * msPerMinute in
      Some (local - tzaLocal local)
  | None => fallback s
  end.

(** [s.split('T')[0]]: the part before the first 'T' (all of [s] when
    there is none). *)
Fixpoint beforeT (s : string) : string :=
  match s with
  | EmptyString => EmptyString
  | String c rest => if Ascii.eqb c "T" then EmptyString else String c (beforeT rest)
  end.

End JsDate.

(* ===================================================================== *)
(** * Data crossing the provider boundary                                *)
(* ===================================================================== *)

(** A rejection value or thrown exception. *)
Definition JsError := string.

Record EventTime := { dateTime : string; timeZone : string }.
Record Attendee := { email : string }.
Record ReminderOverride := { method : string; minutes : Z }.
Record Reminders := { useDefault : bool; overrides : list ReminderOverride }.

(** The object [handleSubmit] builds and [createEvent]/[updateEvent] send
    as [resource]. *)
Record EventData := {
  summary : string;
  description : string;
  start : EventTime;
  end_ : EventTime;
  attendees : list Attendee;
  reminders : Reminders;
  location : string
}.

(** The argument of [gapi.client.calendar.events.list]. *)
Record ListRequest := {
  lr_calendarId : string;
  lr_timeMin : string;
  lr_timeMax : option string;
  lr_showDeleted : bool;
  lr_singleEvents : bool;
  lr_orderBy : string
}.

(** What the provider answers to insert/update: only [id] is read. *)
Record ProviderResult := { res_id : option string }.

(** An event as listed by the provider; opaque to the connector. *)
Record ProviderEvent := { pe_id : string; pe_start : string; pe_status : string }.

(** [response.result.items]: both levels may be missing. *)
Record ListResult := { items : option (list ProviderEvent) }.
Record ListResponse := { result : option ListResult }.

(** [CalendarEvent] of [@/types/communication], as the form reads and
    builds it. *)
Record CalendarEvent := {
  ce_id : string;
  ce_title : string;
  ce_description : option string;
  ce_startDateTime : JsDate.t;
  ce_endDateTime : JsDate.t;
  ce_attendees : option (list string);
  ce_reminders : option (list Z);
  ce_leadId : option string;
  ce_googleEventId : option string;
  ce_createdBy : string;
  ce_createdAt : Z;
  ce_updatedAt : Z
}.

(** The fields of [Lead] the form reads. *)
Record LeadRef := { lead_id : string; lead_name : string; lead_primaryEmail : string }.

(** [formData] of the modal. *)
Record FormData := {
  fd_title : string;
  fd_description : string;
  fd_date : string;
  fd_startTime : string;
  fd_endTime : string;
  fd_location : string;
  fd_attendees : list string;
  fd_reminders : list Z
}.

(* ===================================================================== *)
(** * Effects, the page state and the environment                        *)
(* ===================================================================== *)

(** Everything the code does to the outside, in order of occurrence. *)
Inductive Effect :=
| AppendScript (src : string)
| GapiLoad (module_ : string)
| Auth2Init (client_id : option string)
| GetAuthInstance
| AuthSignIn (scope : string)
| AuthSignOut
| SessionGet
| ClientInit (apiKey : option string) (discoveryDocs : list string)
| EventsInsert (calendarId : string) (resource : EventData)
| EventsUpdate (calendarId eventId : string) (resource : EventData)
| EventsDelete (calendarId eventId : string)
| EventsList (req : ListRequest)
| ConsoleError (msg : string) (err : JsError)
| OnEventCreated (ev : CalendarEvent)
| OnEventUpdated (ev : CalendarEvent)
| OnOpenChange (open : bool).

(** The singleton connector's flag, the modal's React state, and the log
    of effects so far. *)
Record World := {
  isInitialized : bool;
  formData : FormData;
  isLoading : bool;
  isGoogleConnected : bool;
  log : list Effect
}.

(** How an asynchronous step ends: fulfilled, rejected (or thrown), or
    never settled (a callback that is never invoked). *)
Inductive Outcome (A : Type) :=
| Ok (a : A)
| Fail (e : JsError)
| Pending.
Arguments Ok {A} a.
Arguments Fail {A} e.
Arguments Pending {A}.

Inductive ScriptOutcome := ScriptLoaded | ScriptError (e : JsError) | ScriptSilent.

(** The user object [authInstance.signIn] resolves with. *)
Record GoogleUser := { user_isSignedIn : bool }.

(** The environment.  Each oracle sees the log up to its call, so two
    calls of the same operation may be answered differently. *)
Record Env := {
  clientId : option string;              (* NEXT_PUBLIC_GOOGLE_CLIENT_ID *)
  apiKeyCfg : option string;             (* NEXT_PUBLIC_GOOGLE_API_KEY *)
  scriptLoad : list Effect -> ScriptOutcome;
  gapiLoadCalls : list Effect -> bool;   (* does gapi.load invoke its callback *)
  auth2Init : list Effect -> Outcome unit;
  getAuthInstance : list Effect -> Outcome unit;
  authSignIn : list Effect -> Outcome GoogleUser;
  authSignOut : list Effect -> Outcome unit;
  sessionGet : list Effect -> Outcome bool;   (* authInstance.isSignedIn.get() *)
  clientInit : list Effect -> Outcome unit;
  eventsInsert : list Effect -> Outcome (option ProviderResult);
  eventsUpdate : list Effect -> Outcome (option ProviderResult);
  eventsDelete : list Effect -> Outcome unit;
  eventsList : list Effect -> Outcome ListResponse;
  now : list Effect -> nat -> Z;         (* Date.now() / new Date(): the k-th
                                            clock read since the last effect *)
  localTZA : Z -> bool -> Z;             (* zone offset in ms; true: argument is UTC *)
  tzSuffix : string;                     (* zone name printed by toTimeString *)
  timeZoneName : string;                 (* Intl ... resolvedOptions().timeZone *)
  dateFallback : string -> JsDate.t      (* new Date(s) outside the ISO local form *)
}.

(** ** A state-and-outcome monad for [async] code *)

Definition M (A : Type) : Type := World -> Outcome A * World.

Definition ret {A} (a : A) : M A := fun w => (Ok a, w).

Definition bind {A B} (m : M A) (k : A -> M B) : M B :=
  fun w =>
    match m w with
    | (Ok a, w') => k a w'
    | (Fail e, w') => (Fail e, w')
    | (Pending, w') => (Pending, w')
    end.

Definition throw {A} (e : JsError) : M A := fun w => (Fail e, w).

(** [try { m } catch (error) { h error }] *)
Definition tryCatch {A} (m : M A) (h : JsError -> M A) : M A :=
  fun w =>
    match m w with
    | (Ok a, w') => (Ok a, w')
    | (Fail e, w') => h e w'
    | (Pending, w') => (Pending, w')
    end.

(** [try { m } finally { f }]: [f] runs on return and on throw, and is
    never reached when [m] does not settle. *)
Definition tryFinally {A} (m : M A) (f : M unit) : M A :=
  fun w =>
    match m w with
    | (Ok a, w') =>
        match f w' with
        | (Ok _, w'') => (Ok a, w'')
        | (Fail e, w'') => (Fail e, w'')
        | (Pending, w'') => (Pending, w'')
        end
    | (Fail e, w') =>
        match f w' with
        | (Ok _, w'') => (Fail e, w'')
        | (Fail e', w'') => (Fail e', w'')
        | (Pending, w'') => (Pending, w'')
        end
    | (Pending, w') => (Pending, w')
    end.

Declare Scope async_scope.
Delimit Scope async_scope with async.
Notation "x <- m ;; k" := (bind m (fun x => k))
  (at level 61, m at next level, right associativity) : async_scope.
Notation "m ;;; k" := (bind m (fun _ => k))
  (at level 61, right associativity) : async_scope.
Local Open Scope async_scope.

Definition emit (e : Effect) : M unit :=
  fun w => (Ok tt, {| isInitialized := isInitialized w; formData := formData w;
                      isLoading := isLoading w;
                      isGoogleConnected := isGoogleConnected w;
                      log := (log w ++ [e])%list |}).

(** Asks an oracle, showing it the log so far. *)
Definition ask {A} (oracle : list Effect -> Outcome A) : M A :=
  fun w => (oracle (log w), w).

Definition getWorld : M World := fun w => (Ok w, w).

Definition setInitialized (b : bool) : M unit :=
  fun w => (Ok tt, {| isInitialized := b; formData := formData w;
                      isLoading := isLoading w;
                      isGoogleConnected := isGoogleConnected w; log := log w |}).

Definition setFormData (f : FormData -> FormData) : M unit :=
  fun w => (Ok tt, {| isInitialized := isInitialized w; formData := f (formData w);
                      isLoading := isLoading w;
                      isGoogleConnected := isGoogleConnected w; log := log w |}).

Definition setIsLoading (b : bool) : M unit :=
  fun w => (Ok tt, {| isInitialized := isInitialized w; formData := formData w;
                      isLoading := b;
                      isGoogleConnected := isGoogleConnected w; log := log w |}).

Definition setIsGoogleConnected (b : bool) : M unit :=
  fun w => (Ok tt, {| isInitialized := isInitialized w; formData := formData w;
                      isLoading := isLoading w;
                      isGoogleConnected := b; log := log w |}).

(** [console.error(msg, error)] *)
Definition consoleError (msg : string) (e : JsError) : M unit :=
  emit (ConsoleError msg e).

(* ===================================================================== *)
(** * [GoogleCalendarService]                                            *)
(* ===================================================================== *)

Section Connector.

Variable env : Env.

(** [gapi.load(name, callback)]: the continuation runs only if the
    library invokes the callback. *)
Definition gapiLoad {A} (name : string) (callback : M A) : M A :=
  emit (GapiLoad name) ;;;
  fun w => if gapiLoadCalls env (log w) then callback w else (Pending, w).

Definition initializeGoogleAPI : M unit :=
  w <- getWorld ;;
  if isInitialized w then ret tt
  else
    emit (AppendScript "https://apis.google.com/js/api.js") ;;;
    fun w1 =>
      match scriptLoad env (log w1) with
      | ScriptLoaded =>
          gapiLoad "auth2"
            (emit (Auth2Init (clientId env)) ;;;
             ask (auth2Init env) ;;;
             setInitialized true) w1
      | ScriptError e => (Fail e, w1)
      | ScriptSilent => (Pending, w1)
      end.

Definition signIn : M bool :=
  tryCatch
    (initializeGoogleAPI ;;;
     emit GetAuthInstance ;;;
     ask (getAuthInstance env) ;;;
     emit (AuthSignIn "https://www.googleapis.com/auth/calendar") ;;;
     user <- ask (authSignIn env) ;;
     ret (user_isSignedIn user))
    (fun error =>
       consoleError "Google sign-in failed:" error ;;;
       ret false).

Definition signOut : M unit :=
  emit GetAuthInstance ;;;
  ask (getAuthInstance env) ;;;
  emit AuthSignOut ;;;
  ask (authSignOut env).

Definition isSignedIn : M bool :=
  w <- getWorld ;;
  if negb (isInitialized w) then ret false
  else
    emit GetAuthInstance ;;;
    ask (getAuthInstance env) ;;;
    emit SessionGet ;;;
    ask (sessionGet env).

Definition createEvent (event : EventData) : M (option ProviderResult) :=
  initializeGoogleAPI ;;;
  gapiLoad "client"
    (emit (ClientInit (apiKeyCfg env)
             ["https://www.googleapis.com/discovery/v1/apis/calendar/v3/rest"]) ;;;
     ask (clientInit env) ;;;
     emit (EventsInsert "primary" event) ;;;
     ask (eventsInsert env)).

Definition updateEvent (eventId : string) (event : EventData)
  : M (option ProviderResult) :=
  initializeGoogleAPI ;;;
  gapiLoad "client"
    (emit (EventsUpdate "primary" eventId event) ;;;
     ask (eventsUpdate env)).

Definition deleteEvent (eventId : string) : M unit :=
  initializeGoogleAPI ;;;
  gapiLoad "client"
    (emit (EventsDelete "primary" eventId) ;;;
     ask (eventsDelete env)).

(** [x || y] on an optional string: the empty string is falsy too. *)
Definition orElse (x : option string) (y : string) : string :=
  match x with
  | Some s => if String.eqb s "" then y else s
  | None => y
  end.

Definition getEvents (timeMin timeMax : option string) : M (list ProviderEvent) :=
  initializeGoogleAPI ;;;
  gapiLoad "client"
    (w <- getWorld ;;
     emit (EventsList {| lr_calendarId := "primary";
                         lr_timeMin := orElse timeMin (JsDate.isoString (now env (log w) 0));
                         lr_timeMax := timeMax;
                         lr_showDeleted := false;
                         lr_singleEvents := true;
                         lr_orderBy := "startTime" |}) ;;;
     response <- ask (eventsList env) ;;
     match result response with
     | None => throw "TypeError: response.result is undefined"
     | Some r =>
         match items r with
         | Some l => ret l
         | None => ret []
         end
     end).

End Connector.

(* ===================================================================== *)
(** * [CalendarEventModal]                                               *)
(* ===================================================================== *)

Record Props := {
  p_lead : option LeadRef;
  p_event : option CalendarEvent;
  p_onEventCreated : bool;      (* is the optional callback supplied *)
  p_onEventUpdated : bool
}.

(** The initial [formData], also what [resetForm] restores. *)
Definition emptyForm : FormData :=
  {| fd_title := ""; fd_description := ""; fd_date := ""; fd_startTime := "";
     fd_endTime := ""; fd_location := ""; fd_attendees := []; fd_reminders := [10] |}.

(** The offsets offered as check boxes. *)
Definition reminderOptions : list Z := [5; 10; 15; 30; 60].

(** [prev.reminders.includes(minutes) ? filter(r => r !== minutes)
                                      : [...prev.reminders, minutes]] *)
Definition toggleList (m : Z) (l : list Z) : list Z :=
  if existsb (Z.eqb m) l
  then filter (fun r => negb (r =? m)) l
  else (l ++ [m])%list.

Definition withReminders (fd : FormData) (l : list Z) : FormData :=
  {| fd_title := fd_title fd; fd_description := fd_description fd;
     fd_date := fd_date fd; fd_startTime := fd_startTime fd;
     fd_endTime := fd_endTime fd; fd_location := fd_location fd;
     fd_attendees := fd_attendees fd; fd_reminders := l |}.

Definition withAttendees (fd : FormData) (l : list string) : FormData :=
  {| fd_title := fd_title fd; fd_description := fd_description fd;
     fd_date := fd_date fd; fd_startTime := fd_startTime fd;
     fd_endTime := fd_endTime fd; fd_location := fd_location fd;
     fd_attendees := l; fd_reminders := fd_reminders fd |}.

Definition toggleReminder (m : Z) : M unit :=
  setFormData (fun prev => withReminders prev (toggleList m (fd_reminders prev))).

Definition removeAttendee (e : string) : M unit :=
  setFormData (fun prev =>
    withAttendees prev (filter (fun a => negb (String.eqb a e)) (fd_attendees prev))).

Definition resetForm : M unit := setFormData (fun _ => emptyForm).

Section Form.

Variable env : Env.
Variable props : Props.

(** [new Date(s)] in the runtime's zone. *)
Definition newDate (s : string) : JsDate.t :=
  JsDate.parse (fun local => localTZA env local false) (dateFallback env) s.

(** [d.toTimeString().slice(0, 5)] *)
Definition timeOfDay (d : JsDate.t) : string :=
  let tza := match d with Some ms => localTZA env ms true | None => 0 end in
  String.substring 0 5 (JsDate.toTimeString tza (tzSuffix env) d).

(** [d.toISOString().split('T')[0]]; throws on an Invalid Date. *)
Definition dateOfDay (d : JsDate.t) : Outcome string :=
  match JsDate.toISOString d with
  | Some s => Ok (JsDate.beforeT s)
  | None => Fail "RangeError: Invalid time value"
  end.

(** The form fields an existing event is decomposed into. *)
Definition decompose (ev : CalendarEvent) : Outcome FormData :=
  match dateOfDay (ce_startDateTime ev) with
  | Ok date =>
      Ok {| fd_title := ce_title ev;
            fd_description := match ce_description ev with Some s => s | None => "" end;
            fd_date := date;
            fd_startTime := timeOfDay (ce_startDateTime ev);
            fd_endTime := timeOfDay (ce_endDateTime ev);
            fd_location := "";
            fd_attendees := match ce_attendees ev with Some l => l | None => [] end;
            fd_reminders := match ce_reminders ev with Some l => l | None => [10] end |}
  | Fail e => Fail e
  | Pending => Pending
  end.

(** The effect hook on [event, lead]. *)
Definition populate : M unit :=
  match p_event props with
  | Some ev =>
      fd <- (fun w => (decompose ev, w)) ;;
      setFormData (fun _ => fd)
  | None =>
      match p_lead props with
      | Some lead =>
          setFormData (fun prev =>
            {| fd_title := "Follow-up with " ++ lead_name lead;
               fd_description := fd_description prev;
               fd_date := fd_date prev; fd_startTime := fd_startTime prev;
               fd_endTime := fd_endTime prev; fd_location := fd_location prev;
               fd_attendees := [lead_primaryEmail lead];
               fd_reminders := fd_reminders prev |})
      | None => ret tt
      end
  end.

Definition checkGoogleConnection : M unit :=
  tryCatch
    (initializeGoogleAPI env ;;;
     b <- isSignedIn env ;;
     setIsGoogleConnected b)
    (fun error => consoleError "Failed to check Google connection:" error).

Definition handleGoogleConnect : M unit :=
  tryFinally
    (tryCatch
       (setIsLoading true ;;;
        success <- signIn env ;;
        setIsGoogleConnected success)
       (fun error => consoleError "Failed to connect to Google Calendar:" error))
    (setIsLoading false).

(** [startDateTime] and [endDateTime] of [handleSubmit]. *)
Definition recompose (fd : FormData) : JsDate.t * JsDate.t :=
  (newDate (fd_date fd ++ "T" ++ fd_startTime fd),
   newDate (fd_date fd ++ "T" ++ fd_endTime fd)).

(** [eventData] of [handleSubmit]; throws when a date is invalid. *)
Definition buildEventData (fd : FormData) : Outcome EventData :=
  let '(startDateTime, endDateTime) := recompose fd in
  match JsDate.toISOString startDateTime, JsDate.toISOString endDateTime with
  | Some s, Some e =>
      Ok {| summary := fd_title fd;
            description := fd_description fd;
            start := {| dateTime := s; timeZone := timeZoneName env |};
            end_ := {| dateTime := e; timeZone := timeZoneName env |};
            attendees := map (fun a => {| email := a |}) (fd_attendees fd);
            reminders :=
              {| useDefault := false;
                 overrides := map (fun m => {| method := "popup"; minutes := m |})
                                  (fd_reminders fd) |};
            location := fd_location fd |}
  | _, _ => Fail "RangeError: Invalid time value"
  end.

(** A string used as a condition: empty is falsy. *)
Definition truthy (o : option string) : option string :=
  match o with
  | Some s => if String.eqb s "" then None else Some s
  | None => None
  end.

Definition showZ (n : Z) : string := NilZero.string_of_int (Z.to_int n).

(** [handleSubmit] past the early return, on the [formData] of the
    render that created the handler. *)
Definition submitEvent (fd : FormData) : M unit :=
    setIsLoading true ;;;
    tryFinally
      (tryCatch
         (eventData <- (fun w => (buildEventData fd, w)) ;;
          res <- match truthy (match p_event props with
                               | Some ev => ce_googleEventId ev
                               | None => None
                               end) with
                 | Some gid => updateEvent env gid eventData
                 | None => createEvent env eventData
                 end ;;
          w <- getWorld ;;
          match res with
          | None => throw "TypeError: result is undefined"
          | Some r =>
              let newEvent :=
                {| ce_id := match truthy (option_map ce_id (p_event props)) with
                            | Some i => i
                            | None => "event-" ++ showZ (now env (log w) 0)
                            end;
                   ce_title := fd_title fd;
                   ce_description := Some (fd_description fd);
                   ce_startDateTime := fst (recompose fd);
                   ce_endDateTime := snd (recompose fd);
                   ce_attendees := Some (fd_attendees fd);
                   ce_reminders := Some (fd_reminders fd);
                   ce_leadId := option_map lead_id (p_lead props);
                   ce_googleEventId := res_id r;
                   ce_createdBy := "current-user";
                   ce_createdAt := now env (log w) 1;
                   ce_updatedAt := now env (log w) 2 |} in
              match p_event props with
              | Some _ => if p_onEventUpdated props then emit (OnEventUpdated newEvent)
                          else ret tt
              | None => if p_onEventCreated props then emit (OnEventCreated newEvent)
                        else ret tt
              end ;;;
              emit (OnOpenChange false) ;;;
              resetForm
          end)
         (fun error => consoleError "Failed to create/update event:" error))
      (setIsLoading false).

Definition handleSubmit : M unit :=
  w0 <- getWorld ;;
  if negb (isGoogleConnected w0) then handleGoogleConnect
  else submitEvent (formData w0).

End Form.

(* ===================================================================== *)
(** * The disconnect endpoint ([POST])                                   *)
(* ===================================================================== *)

Record Response := { status : Z; message : string }.

(** [NextResponse.json({ message }, { status })]; the status defaults
    to 200. *)
Definition json (msg : string) (st : option Z) : Response :=
  {| status := match st with Some c => c | None => 200 end; message := msg |}.

Record Request := { authorization : option string }.

Section Disconnect.

(** What lives on the server: provider tokens and account linkage. *)
Variable Store : Type.
(** The claims of a verified token. *)
Variable Claims : Type.
(** [jwt.verify(token, secret)]: [None] when it throws. *)
Variable jwtVerify : string -> string -> option Claims.
(** [process.env.JWT_SECRET] *)
Variable envSecret : option string.

Definition JWT_SECRET : string := orElse envSecret "your-secret-key".

(** [s.substring(n)] *)
Definition substringFrom (n : nat) (s : string) : string :=
  String.substring n (String.length s - n) s.

Definition POST (request : Request) (db : Store) : Response * Store :=
  match authorization request with
  | None => (json "Authentication required" (Some 401), db)
  | Some authHeader =>
      if String.eqb authHeader "" || negb (String.prefix "Bearer " authHeader)
      then (json "Authentication required" (Some 401), db)
      else
        let token := substringFrom 7 authHeader in
        match jwtVerify token JWT_SECRET with
        | Some decoded =>
            (json "Google account disconnected successfully" None, db)
        | None => (json "Invalid token" (Some 401), db)
        end
  end.

End Disconnect.

(* ===================================================================== *)
(** * The lead list page                                                 *)
(* ===================================================================== *)

Inductive LeadScore := High | Medium | Low.

Definition LeadScore_eqb (a b : LeadScore) : bool :=
  match a, b with
  | High, High | Medium, Medium | Low, Low => true
  | _, _ => false
  end.

Record Lead := {
  l_id : string;
  l_name : string;
  l_primaryEmail : string;
  l_primaryPhone : string;
  l_status : string;
  l_assignedAgent : option string;
  l_source : string;
  l_propertyType : string;
  l_budgetRange : option string;
  l_leadScore : LeadScore;
  l_createdAt : JsDate.t          (* new Date(lead.createdAt).getTime() *)
}.

Record Filters := {
  f_search : option string;
  f_status : option (list string);
  f_assignedAgent : option string;
  f_source : option (list string);
  f_propertyType : option (list string);
  f_budgetRange : option string;
  f_leadScore : option (list LeadScore)
}.

Inductive SortOption :=
| created_desc | created_asc | name_asc | name_desc | score_high | score_low.

(** [hay.includes(needle)] on strings. *)
Fixpoint includes (needle hay : string) : bool :=
  if String.prefix needle hay then true
  else match hay with
       | EmptyString => false
       | String _ rest => includes needle rest
       end.

(** [xs && xs.length > 0 && !xs.includes(x)]: an active list filter that
    rejects [x]. *)
Definition rejects {A} (eqb : A -> A -> bool) (xs : option (list A)) (x : A) : bool :=
  match xs with
  | Some (y :: ys) => negb (existsb (eqb x) (y :: ys))
  | _ => false
  end.

(** [f && v !== f] for an optional string filter. *)
Definition differs (f : option string) (v : option string) : bool :=
  match f with
  | Some s =>
      if String.eqb s "" then false
      else match v with
           | Some s' => negb (String.eqb s' s)
           | None => true
           end
  | None => false
  end.

(** A comparator's number; [None] is NaN. *)
Definition sub (a b : JsDate.t) : option Z :=
  match a, b with
  | Some x, Some y => Some (x - y)
  | _, _ => None
  end.

Definition scoreOrder (s : LeadScore) : Z :=
  match s with High => 3 | Medium => 2 | Low => 1 end.

(** Stable sort by a comparator, as [Array.prototype.sort]: an element
    moves behind another only when the comparator is positive; NaN counts
    as 0. *)
Section Sort.
Context {A : Type}.
Variable cmp : A -> A -> option Z.

Definition goesAfter (x y : A) : bool :=
  match cmp x y with Some v => 0 <? v | None => false end.

Fixpoint insert (x : A) (l : list A) : list A :=
  match l with
  | [] => [x]
  | y :: l' => if goesAfter x y then y :: insert x l' else x :: y :: l'
  end.

Fixpoint sort (l : list A) : list A :=
  match l with
  | [] => []
  | x :: l' => insert x (sort l')
  end.
End Sort.

Section LeadList.

(** [String.prototype.toLowerCase] and [localeCompare] of the runtime. *)
Variable toLowerCase : string -> string.
Variable localeCompare : string -> string -> Z.
(** [PermissionService.filterLeadsForUser] of [@/lib/permissions]. *)
Variable User : Type.
Variable filterLeadsForUser : list Lead -> option User -> list Lead.

Definition userFilteredLeads (leads : list Lead) (user : option User) : list Lead :=
  filterLeadsForUser leads user.

(** The callback of [userFilteredLeads.filter]. *)
Definition matchesFilters (filters : Filters) (lead : Lead) : bool :=
  if match truthy (f_search filters) with
     | Some search =>
         negb (includes (toLowerCase search)
                 (toLowerCase (l_name lead ++ " " ++ l_primaryEmail lead ++ " "
                                 ++ l_primaryPhone lead)))
     | None => false
     end then false
  else if rejects String.eqb (f_status filters) (l_status lead) then false
  else if differs (f_assignedAgent filters) (l_assignedAgent lead) then false
  else if rejects String.eqb (f_source filters) (l_source lead) then false
  else if rejects String.eqb (f_propertyType filters) (l_propertyType lead) then false
  else if differs (f_budgetRange filters) (l_budgetRange lead) then false
  else if rejects LeadScore_eqb (f_leadScore filters) (l_leadScore lead) then false
  else true.

(** The callback of [filtered.sort]. *)
Definition compareLeads (sortBy : SortOption) (a b : Lead) : option Z :=
  match sortBy with
  | created_desc => sub (l_createdAt b) (l_createdAt a)
  | created_asc => sub (l_createdAt a) (l_createdAt b)
  | name_asc => Some (localeCompare (l_name a) (l_name b))
  | name_desc => Some (localeCompare (l_name b) (l_name a))
  | score_high => Some (scoreOrder (l_leadScore b) - scoreOrder (l_leadScore a))
  | score_low => Some (scoreOrder (l_leadScore a) - scoreOrder (l_leadScore b))
  end.

Definition filteredAndSortedLeads
    (leads : list Lead) (user : option User) (filters : Filters) (sortBy : SortOption)
  : list Lead :=
  sort (compareLeads sortBy) (filter (matchesFilters filters) (userFilteredLeads leads user)).

End LeadList.

(* ===================================================================== *)
(** * [CalendarEventModal]: adding an attendee                           *)
(* ===================================================================== *)

(** [addAttendee].  [answer] is what [prompt('Enter attendee email:')]
    returned: [None] when the dialog was cancelled. *)
Definition addAttendee (answer : option string) : M unit :=
  match truthy answer with
  | Some email =>
      if includes "@" email
      then setFormData (fun prev => withAttendees prev (fd_attendees prev ++ [email])%list)
      else ret tt
  | None => ret tt
  end.

(* ===================================================================== *)
(** * Vocabulary of the properties                                       *)
(* ===================================================================== *)

(** ** Specifications of runs *)

(** [m] moves the world along [R]; a value it resolves with satisfies [Q]. *)
Definition spec (R : World -> World -> Prop) {A} (Q : A -> Prop) (m : M A) : Prop :=
  forall w, R w (snd (m w)) /\ (forall a, fst (m w) = Ok a -> Q a).

(** The log only grows, by effects satisfying [P]; with [keepForm] the
    form fields stay as they were. *)
Definition moved (P : Effect -> Prop) (keepForm : bool) (w w' : World) : Prop :=
  (keepForm = true -> formData w' = formData w)
  /\ exists es, log w' = (log w ++ es)%list /\ Forall P es.

(** Decompose in the zone of [envOpen], recompose in the zone of
    [envSubmit]. *)
Definition roundTripAcross (envOpen envSubmit : Env) (ev : CalendarEvent)
  : option (JsDate.t * JsDate.t) :=
  match decompose envOpen ev with
  | Ok fd => Some (recompose envSubmit fd)
  | _ => None
  end.

(** ** Sample environments, worlds and inputs *)

(** Everything succeeds, the user consents, the zone is [tza] ms east of
    UTC all year. *)
Definition happyEnv (tza : Z) : Env :=
  {| clientId := Some "client-id";
     apiKeyCfg := Some "api-key";
     scriptLoad := fun _ => ScriptLoaded;
     gapiLoadCalls := fun _ => true;
     auth2Init := fun _ => Ok tt;
     getAuthInstance := fun _ => Ok tt;
     authSignIn := fun _ => Ok {| user_isSignedIn := true |};
     authSignOut := fun _ => Ok tt;
     sessionGet := fun _ => Ok true;
     clientInit := fun _ => Ok tt;
     eventsInsert := fun _ => Ok (Some {| res_id := Some "g-1" |});
     eventsUpdate := fun _ => Ok (Some {| res_id := Some "g-1" |});
     eventsDelete := fun _ => Ok tt;
     eventsList := fun _ => Ok {| result := Some {| items := None |} |};
     now := fun _ k => 1717232400000 + Z.of_nat k;
     localTZA := fun _ _ => tza;
     tzSuffix := " (zone)";
     timeZoneName := "Etc/Zone";
     dateFallback := fun _ => None |}.

(** The user closes the consent popup. *)
Definition deniedEnv : Env :=
  {| clientId := Some "client-id";
     apiKeyCfg := Some "api-key";
     scriptLoad := fun _ => ScriptLoaded;
     gapiLoadCalls := fun _ => true;
     auth2Init := fun _ => Ok tt;
     getAuthInstance := fun _ => Ok tt;
     authSignIn := fun _ => Fail "popup_closed_by_user";
     authSignOut := fun _ => Ok tt;
     sessionGet := fun _ => Ok false;
     clientInit := fun _ => Ok tt;
     eventsInsert := fun _ => Fail "401";
     eventsUpdate := fun _ => Fail "401";
     eventsDelete := fun _ => Fail "401";
     eventsList := fun _ => Fail "401";
     now := fun _ k => 1717232400000 + Z.of_nat k;
     localTZA := fun _ _ => 0;
     tzSuffix := " (Coordinated Universal Time)";
     timeZoneName := "UTC";
     dateFallback := fun _ => None |}.

Definition world0 : World :=
  {| isInitialized := false; formData := emptyForm; isLoading := false;
     isGoogleConnected := false; log := [] |}.

Definition worldReady (connected : bool) (fd : FormData) : World :=
  {| isInitialized := true; formData := fd; isLoading := false;
     isGoogleConnected := connected; log := [] |}.

(** [w] after the effects [es]. *)
Definition logged (w : World) (es : list Effect) : World :=
  {| isInitialized := isInitialized w; formData := formData w;
     isLoading := isLoading w; isGoogleConnected := isGoogleConnected w;
     log := (log w ++ es)%list |}.

Definition signInEffects : list Effect :=
  [GetAuthInstance; AuthSignIn "https://www.googleapis.com/auth/calendar"].

(** Effects that neither write to the provider's calendar nor call back
    into the parent. *)
Definition benign (e : Effect) : bool :=
  match e with
  | EventsInsert _ _ | EventsUpdate _ _ _ | OnEventCreated _ | OnEventUpdated _ => false
  | _ => true
  end.

(** The attendee and reminder part of a payload built from [fd]. *)
Definition payloadOf (fd : FormData) (p : EventData) : Prop :=
  attendees p = map (fun a => {| email := a |}) (fd_attendees fd)
  /\ reminders p
     = {| useDefault := false;
          overrides := map (fun m => {| method := "popup"; minutes := m |})
                           (fd_reminders fd) |}.

Definition sends (fd : FormData) (e : Effect) : Prop :=
  match e with
  | EventsInsert c p | EventsUpdate c _ p => c = "primary" /\ payloadOf fd p
  | _ => True
  end.

Definition sampleForm : FormData :=
  {| fd_title := "Viewing"; fd_description := ""; fd_date := "2024-06-01";
     fd_startTime := "09:00"; fd_endTime := "10:00"; fd_location := "";
     fd_attendees := ["a@x.com"]; fd_reminders := [10] |}.

Definition newEventProps : Props :=
  {| p_lead := None; p_event := None;
     p_onEventCreated := true; p_onEventUpdated := true |}.

(** The payload [sampleForm] is sent as, in the environment [happyEnv 0]. *)
Definition samplePayload : EventData :=
  {| summary := "Viewing";
     description := "";
     start := {| dateTime := "2024-06-01T09:00:00.000Z"; timeZone := "Etc/Zone" |};
     end_ := {| dateTime := "2024-06-01T10:00:00.000Z"; timeZone := "Etc/Zone" |};
     attendees := [{| email := "a@x.com" |}];
     reminders := {| useDefault := false;
                     overrides := [{| method := "popup"; minutes := 10 |}] |};
     location := "" |}.

(** The request [getEvents()] sends when the clock reads [t]. *)
Definition defaultListRequest (t : Z) : ListRequest :=
  {| lr_calendarId := "primary";
     lr_timeMin := JsDate.isoString t;
     lr_timeMax := None;
     lr_showDeleted := false;
     lr_singleEvents := true;
     lr_orderBy := "startTime" |}.

(** A verifier that accepts one token. *)
Definition onlyGoodToken (token secret : string) : option unit :=
  if String.eqb token "good" && String.eqb secret "your-secret-key"
  then Some tt else None.

Definition mkLead (name : string) (score : LeadScore) : Lead :=
  {| l_id := name; l_name := name; l_primaryEmail := ""; l_primaryPhone := "";
     l_status := "New"; l_assignedAgent := None; l_source := "Website";
     l_propertyType := "Residential"; l_budgetRange := None;
     l_leadScore := score; l_createdAt := Some 0 |}.

Definition noFilters : Filters :=
  {| f_search := None; f_status := None; f_assignedAgent := None; f_source := None;
     f_propertyType := None; f_budgetRange := None; f_leadScore := None |}.

(** The stored event of the spec's example: 2024-06-01, 09:00Z to 10:00Z. *)
Definition juneEvent : CalendarEvent :=
  {| ce_id := "event-1"; ce_title := "Viewing"; ce_description := None;
     ce_startDateTime := Some 1717232400000;
     ce_endDateTime := Some 1717236000000;
     ce_attendees := None; ce_reminders := None; ce_leadId := None;
     ce_googleEventId := Some "g-1"; ce_createdBy := "current-user";
     ce_createdAt := 0; ce_updatedAt := 0 |}.

(** Open the modal on [ev], then submit untouched: the instants the
    submit handler computes. *)
Definition roundTrip (env : Env) (ev : CalendarEvent) : option (JsDate.t * JsDate.t) :=
  match decompose env ev with
  | Ok fd => Some (recompose env fd)
  | _ => None
  end.


(** A runtime zone that is [off] minutes east of UTC at all times. *)
Definition fixedZone (env : Env) (off : Z) : Prop :=
  forall t b, localTZA env t b = off * 60000.

(** "HH:MM" for the minute [k] of the day. *)
Definition hhmm (k : Z) : string := JsDate.pad2 (k / 60) ++ ":" ++ JsDate.pad2 (k mod 60).

Definition hhmmOk (k : Z) : bool :=
  match JsDate.parseLocalDateTime ("2024-06-01" ++ "T" ++ hhmm k) with
  | Some (y, m, d, h, mi) =>
      (y =? 2024) && (m =? 6) && (d =? 1) && (h =? k / 60) && (mi =? k mod 60)
  | None => false
  end.


(** ** Vocabulary of the further properties *)

(** What a resolved first initialization adds to the log. *)
Definition initEffects (env : Env) : list Effect :=
  [AppendScript "https://apis.google.com/js/api.js"; GapiLoad "auth2";
   Auth2Init (clientId env)].

(** [w] with the connector's flag raised. *)
Definition markReady (w : World) : World :=
  {| isInitialized := true; formData := formData w; isLoading := isLoading w;
     isGoogleConnected := isGoogleConnected w; log := log w |}.

(** The script cannot be fetched. *)
Definition offlineEnv : Env :=
  {| clientId := Some "client-id";
     apiKeyCfg := Some "api-key";
     scriptLoad := fun _ => ScriptError "net::ERR_INTERNET_DISCONNECTED";
     gapiLoadCalls := fun _ => true;
     auth2Init := fun _ => Ok tt;
     getAuthInstance := fun _ => Fail "TypeError: gapi is undefined";
     authSignIn := fun _ => Fail "offline";
     authSignOut := fun _ => Fail "offline";
     sessionGet := fun _ => Fail "offline";
     clientInit := fun _ => Fail "offline";
     eventsInsert := fun _ => Fail "offline";
     eventsUpdate := fun _ => Fail "offline";
     eventsDelete := fun _ => Fail "offline";
     eventsList := fun _ => Fail "offline";
     now := fun _ k => 1717232400000 + Z.of_nat k;
     localTZA := fun _ _ => 0;
     tzSuffix := " (Coordinated Universal Time)";
     timeZoneName := "UTC";
     dateFallback := fun _ => None |}.

(** The modal's state and the connector's flag do not move backwards:
    the three React values are as before and a raised flag stays raised. *)
Definition keepsPage (w w' : World) : Prop :=
  formData w' = formData w
  /\ isLoading w' = isLoading w
  /\ isGoogleConnected w' = isGoogleConnected w
  /\ (isInitialized w = true -> isInitialized w' = true).

Definition isClientInit (e : Effect) : bool :=
  match e with ClientInit _ _ => true | _ => false end.

(** The list request of [getEvents(timeMin, timeMax)] when the clock
    reads [t]. *)
Definition listRequest (timeMin timeMax : option string) (t : Z) : ListRequest :=
  {| lr_calendarId := "primary";
     lr_timeMin := orElse timeMin (JsDate.isoString t);
     lr_timeMax := timeMax;
     lr_showDeleted := false;
     lr_singleEvents := true;
     lr_orderBy := "startTime" |}.

(** What [getEvents] makes of the provider's answer. *)
Definition listedItems (o : Outcome ListResponse) : Outcome (list ProviderEvent) :=
  match o with
  | Ok {| result := Some {| items := Some l |} |} => Ok l
  | Ok {| result := Some {| items := None |} |} => Ok []
  | Ok {| result := None |} => Fail "TypeError: response.result is undefined"
  | Fail e => Fail e
  | Pending => Pending
  end.

(** The attendee list after an action on the form. *)
Definition attendeesAfter (m : M unit) (w : World) : list string :=
  fd_attendees (formData (snd (m w))).

(** The reminder list after an action on the form. *)
Definition remindersAfter (m : M unit) (w : World) : list Z :=
  fd_reminders (formData (snd (m w))).

(** The connector call [handleSubmit] makes for the payload [p]: an update
    when the edited event carries a non-empty provider id, else a create. *)
Definition providerCall (env : Env) (props : Props) (p : EventData)
  : M (option ProviderResult) :=
  match truthy (match p_event props with
                | Some ev => ce_googleEventId ev
                | None => None
                end) with
  | Some gid => updateEvent env gid p
  | None => createEvent env p
  end.

(** The record [handleSubmit] hands to the parent, for the provider's
    answer [r], when the log is [l] at the time it is built. *)
Definition localRecord (env : Env) (props : Props) (fd : FormData)
    (r : ProviderResult) (l : list Effect) : CalendarEvent :=
  {| ce_id := match truthy (option_map ce_id (p_event props)) with
              | Some i => i
              | None => "event-" ++ showZ (now env l 0)
              end;
     ce_title := fd_title fd;
     ce_description := Some (fd_description fd);
     ce_startDateTime := fst (recompose env fd);
     ce_endDateTime := snd (recompose env fd);
     ce_attendees := Some (fd_attendees fd);
     ce_reminders := Some (fd_reminders fd);
     ce_leadId := option_map lead_id (p_lead props);
     ce_googleEventId := res_id r;
     ce_createdBy := "current-user";
     ce_createdAt := now env l 1;
     ce_updatedAt := now env l 2 |}.

(** The parent callback a successful submit invokes, if supplied. *)
Definition callbackEffects (props : Props) (ev : CalendarEvent) : list Effect :=
  match p_event props with
  | Some _ => if p_onEventUpdated props then [OnEventUpdated ev] else []
  | None => if p_onEventCreated props then [OnEventCreated ev] else []
  end.

(** [w] at the end of a handler: loading flag down, form fields [fd],
    effects [es] added. *)
Definition finished (w : World) (fd : FormData) (es : list Effect) : World :=
  {| isInitialized := isInitialized w; formData := fd; isLoading := false;
     isGoogleConnected := isGoogleConnected w; log := (log w ++ es)%list |}.

(** Effects that come from the connector's own calls. *)
Definition connectorEffect (e : Effect) : bool :=
  match e with
  | OnEventCreated _ | OnEventUpdated _ | OnOpenChange _ | ConsoleError _ _ => false
  | _ => true
  end.

(** An existing event without a provider id, being edited. *)
Definition unsyncedEvent : CalendarEvent :=
  {| ce_id := "event-7"; ce_title := "Viewing"; ce_description := None;
     ce_startDateTime := Some 1717232400000;
     ce_endDateTime := Some 1717236000000;
     ce_attendees := None; ce_reminders := None; ce_leadId := None;
     ce_googleEventId := None; ce_createdBy := "current-user";
     ce_createdAt := 0; ce_updatedAt := 0 |}.

Definition editProps (ev : CalendarEvent) : Props :=
  {| p_lead := None; p_event := Some ev;
     p_onEventCreated := true; p_onEventUpdated := true |}.


(** The provider id of the event being edited, when it has a non-empty one. *)
Definition editedProviderId (props : Props) : option string :=
  truthy (match p_event props with
          | Some ev => ce_googleEventId ev
          | None => None
          end).

(** A write request agrees with the props: updates go to the edited
    event's provider id, inserts happen only when there is none. *)
Definition dispatched (props : Props) (e : Effect) : Prop :=
  match e with
  | EventsInsert _ _ => editedProviderId props = None
  | EventsUpdate _ i _ => editedProviderId props = Some i
  | OnEventCreated _ => p_event props = None
  | OnEventUpdated _ => p_event props <> None
  | _ => True
  end.

(** The record of the sample submit in [happyEnv 0]. *)
Definition sampleRecord : CalendarEvent :=
  localRecord (happyEnv 0) newEventProps sampleForm {| res_id := Some "g-1" |}
    [GapiLoad "client";
     ClientInit (Some "api-key")
       ["https://www.googleapis.com/discovery/v1/apis/calendar/v3/rest"];
     EventsInsert "primary" samplePayload].

(** [w] with the loading flag raised. *)
Definition loading (w : World) : World :=
  {| isInitialized := isInitialized w; formData := formData w; isLoading := true;
     isGoogleConnected := isGoogleConnected w; log := log w |}.

(** [w] at the end of the connect handler, with sign-in answer [b]. *)
Definition connectedAs (b : bool) (w : World) : World :=
  {| isInitialized := isInitialized w; formData := formData w; isLoading := false;
     isGoogleConnected := b; log := log w |}.

(** An event whose start is an Invalid Date. *)
Definition brokenEvent : CalendarEvent :=
  {| ce_id := "event-9"; ce_title := "Broken"; ce_description := None;
     ce_startDateTime := None;
     ce_endDateTime := Some 1717236000000;
     ce_attendees := None; ce_reminders := None; ce_leadId := None;
     ce_googleEventId := None; ce_createdBy := "current-user";
     ce_createdAt := 0; ce_updatedAt := 0 |}.

Definition sampleLead : LeadRef :=
  {| lead_id := "lead-1"; lead_name := "Ada"; lead_primaryEmail := "ada@x.com" |}.

(** The instants [toISOString] prints with a four-digit year:
    0000-01-01T00:00:00.000Z up to, not including, +010000-01-01. *)
Definition fourDigitYear (ms : Z) : Prop :=
  -62167219200000 <= ms < 253402300800000.

(** The minute of the local day of the instant [ms], [off] minutes east
    of UTC. *)
Definition localMinute (off ms : Z) : Z := (ms + off * 60000) mod 86400000 / 60000.

(** The local calendar day of [ms] is the UTC calendar day of [ref]. *)
Definition sameDay (off ms ref : Z) : Prop :=
  (ms + off * 60000) / 86400000 = ref / 86400000.

(** ** Vocabulary for the lead list *)

(** [x] may stand before [y] in a list sorted by [cmp]: the comparator
    does not send [x] behind [y]. *)
Definition before {A} (cmp : A -> A -> option Z) (x y : A) : Prop :=
  goesAfter cmp x y = false.

Definition scoreNotBelow (a b : Lead) : Prop :=
  scoreOrder (l_leadScore b) <= scoreOrder (l_leadScore a).

Definition scoreNotAbove (a b : Lead) : Prop :=
  scoreOrder (l_leadScore a) <= scoreOrder (l_leadScore b).

Definition notOlder (a b : Lead) : Prop :=
  match l_createdAt a, l_createdAt b with
  | Some ta, Some tb => tb <= ta
  | _, _ => True
  end.

Definition notNewer (a b : Lead) : Prop :=
  match l_createdAt a, l_createdAt b with
  | Some ta, Some tb => ta <= tb
  | _, _ => True
  end.

Definition validCreatedAt (l : Lead) : Prop := l_createdAt l <> None.



(** No filter of [filters] is active: each is missing, the empty string
    or the empty list. *)
Definition inactive (filters : Filters) : Prop :=
  truthy (f_search filters) = None
  /\ (f_status filters = None \/ f_status filters = Some [])
  /\ truthy (f_assignedAgent filters) = None
  /\ (f_source filters = None \/ f_source filters = Some [])
  /\ (f_propertyType filters = None \/ f_propertyType filters = Some [])
  /\ truthy (f_budgetRange filters) = None
  /\ (f_leadScore filters = None \/ f_leadScore filters = Some []).

(** Filters as a cleared filter panel leaves them. *)
Definition clearedFilters : Filters :=
  {| f_search := Some ""; f_status := Some []; f_assignedAgent := Some "";
     f_source := Some []; f_propertyType := None; f_budgetRange := None;
     f_leadScore := Some [] |}.

Definition threeLeads : list Lead :=
  [mkLead "a" Low; mkLead "b" High; mkLead "c" Medium].

(* ===================================================================== *)
(** * Properties                                                         *)
(* ===================================================================== *)

(** ** Two runs of [signIn] *)

Example signIn_happy :
  signIn (happyEnv 0) world0
  = (Ok true,
     {| isInitialized := true; formData := emptyForm; isLoading := false;
        isGoogleConnected := false;
        log := [AppendScript "https://apis.google.com/js/api.js"; GapiLoad "auth2";
                Auth2Init (Some "client-id"); GetAuthInstance;
                AuthSignIn "https://www.googleapis.com/auth/calendar"] |}).
Proof. reflexivity. Qed.

Example signIn_denied :
  fst (signIn deniedEnv world0) = Ok false.
Proof. reflexivity. Qed.

(** ** Initialization *)

Ltac run := unfold bind, getWorld, ret, emit, ask, throw, tryCatch; simpl.

Lemma initialize_when_ready env w :
  isInitialized w = true -> initializeGoogleAPI env w = (Ok tt, w).
Proof.
  intros H. unfold initializeGoogleAPI. run. rewrite H. reflexivity.
Qed.

(** A resolved initialization leaves the flag set. *)
Lemma initialize_sets_flag env w w' :
  initializeGoogleAPI env w = (Ok tt, w') -> isInitialized w' = true.
Proof.
  unfold initializeGoogleAPI, gapiLoad, setInitialized. run.
  destruct (isInitialized w) eqn:Hi.
  - intros E. inversion E. subst. exact Hi.
  - destruct (scriptLoad env _); try discriminate.
    destruct (gapiLoadCalls env _); try discriminate.
    destruct (auth2Init env _); try discriminate.
    intros E. inversion E. reflexivity.
Qed.

(** The flag is raised by nothing but a resolved initialization. *)
Lemma initialize_flag_only_on_success env w o w' :
  isInitialized w = false ->
  initializeGoogleAPI env w = (o, w') ->
  isInitialized w' = true -> o = Ok tt.
Proof.
  unfold initializeGoogleAPI, gapiLoad, setInitialized. run.
  intros Hi. rewrite Hi.
  destruct (scriptLoad env _).
  - destruct (gapiLoadCalls env _).
    + destruct (auth2Init env _) as [[]| |]; intros E; inversion E; subst; simpl;
        congruence.
    + intros E; inversion E; subst; simpl; congruence.
  - intros E; inversion E; subst; simpl; congruence.
  - intros E; inversion E; subst; simpl; congruence.
Qed.

(** Running [initialize] twice in a row is running it once, from any
    state: a failure or a stall of the first run ends the sequence, and a
    success makes the second run a no-op. *)
Lemma initialize_twice env w :
  (initializeGoogleAPI env ;;; initializeGoogleAPI env) w = initializeGoogleAPI env w.
Proof.
  unfold bind at 1.
  destruct (initializeGoogleAPI env w) as [[[]|e|] w'] eqn:E; try reflexivity.
  apply initialize_when_ready. eapply initialize_sets_flag; eauto.
Qed.

(** C1.  Once the initialized flag is set, [initialize()] resolves at once
    and changes nothing: no script element is appended, no auth module is
    loaded, the log and every other part of the state are as before; so
    two calls in sequence equal a single call. *)
Theorem C1_initialize_idempotent_when_ready env w :
  isInitialized w = true ->
  initializeGoogleAPI env w = (Ok tt, w)
  /\ (initializeGoogleAPI env ;;; initializeGoogleAPI env) w = initializeGoogleAPI env w
  /\ log (snd ((initializeGoogleAPI env ;;; initializeGoogleAPI env) w)) = log w.
Proof.
  intros H. split; [|split].
  - now apply initialize_when_ready.
  - apply initialize_twice.
  - rewrite initialize_twice, initialize_when_ready by assumption. reflexivity.
Qed.

Lemma C1_witness :
  isInitialized (worldReady false emptyForm) = true
  /\ initializeGoogleAPI deniedEnv (worldReady false emptyForm)
     = (Ok tt, worldReady false emptyForm).
Proof.
  split; [reflexivity|].
  apply (C1_initialize_idempotent_when_ready deniedEnv (worldReady false emptyForm)).
  reflexivity.
Defined.

(** ** [isSignedIn] *)

(** C7.  While initialization has not completed, [isSignedIn()] answers
    false and touches nothing: the auth instance is not fetched and the
    session flag is not read, whatever they would have answered.  Once the
    flag is set the answer is the live session state. *)
Theorem C7_isSignedIn_uninitialized env w :
  (isInitialized w = false -> isSignedIn env w = (Ok false, w))
  /\ (isInitialized w = true ->
      getAuthInstance env (log w ++ [GetAuthInstance])%list = Ok tt ->
      fst (isSignedIn env w)
      = sessionGet env (log w ++ [GetAuthInstance; SessionGet])%list).
Proof.
  split.
  - intros H. unfold isSignedIn. run. rewrite H. reflexivity.
  - intros H G. unfold isSignedIn. run. rewrite H. simpl. rewrite G.
    rewrite <- app_assoc. simpl.
    destruct (sessionGet env _); reflexivity.
Qed.

Lemma C7_witness :
  isSignedIn (happyEnv 0) world0 = (Ok false, world0)
  /\ fst (isSignedIn (happyEnv 0) (worldReady false emptyForm)) = Ok true.
Proof.
  split.
  - apply (proj1 (C7_isSignedIn_uninitialized (happyEnv 0) world0)). reflexivity.
  - apply (proj2 (C7_isSignedIn_uninitialized (happyEnv 0) (worldReady false emptyForm)));
      reflexivity.
Defined.

(** ** [signIn] *)

Lemma logged_logged w es fs : logged (logged w es) fs = logged w (es ++ fs).
Proof. unfold logged. simpl. now rewrite app_assoc. Qed.

(** The run of [signIn], stage by stage. *)
Lemma signIn_stages env w :
  match initializeGoogleAPI env w with
  | (Fail e, w1) =>
      signIn env w = (Ok false, logged w1 [ConsoleError "Google sign-in failed:" e])
  | (Pending, w1) => signIn env w = (Pending, w1)
  | (Ok _, w1) =>
      match getAuthInstance env (log w1 ++ [GetAuthInstance])%list with
      | Fail e =>
          signIn env w
          = (Ok false, logged w1 [GetAuthInstance; ConsoleError "Google sign-in failed:" e])
      | Pending => signIn env w = (Pending, logged w1 [GetAuthInstance])
      | Ok _ =>
          match authSignIn env (log w1 ++ signInEffects)%list with
          | Ok user => signIn env w = (Ok (user_isSignedIn user), logged w1 signInEffects)
          | Fail e =>
              signIn env w
              = (Ok false,
                 logged w1 (signInEffects ++ [ConsoleError "Google sign-in failed:" e]))
          | Pending => signIn env w = (Pending, logged w1 signInEffects)
          end
      end
  end.
Proof.
  unfold signIn, consoleError, signInEffects, logged. run.
  destruct (initializeGoogleAPI env w) as [[[]|e|] w1]; try reflexivity.
  destruct (getAuthInstance env _) as [[]|e|];
    [|simpl; rewrite <- ?app_assoc; reflexivity ..].
  rewrite <- !app_assoc. simpl.
  destruct (authSignIn env _) as [u|e|];
    simpl; rewrite <- ?app_assoc; reflexivity.
Qed.

(** C2.  [signIn()] never rejects.  It resolves to true exactly when
    initialization resolved and the library's sign-in resolved with an
    authenticated user; when initialization rejects or the library's
    sign-in rejects (the user cancels, the popup is blocked) it resolves to
    false, and the last effect is the console line carrying the error. *)
Theorem C2_signIn_never_rejects env w :
  (forall e, fst (signIn env w) <> Fail e)
  /\ (fst (signIn env w) = Ok true <->
      exists w1 user,
        initializeGoogleAPI env w = (Ok tt, w1)
        /\ getAuthInstance env (log w1 ++ [GetAuthInstance])%list = Ok tt
        /\ authSignIn env (log w1 ++ signInEffects)%list = Ok user
        /\ user_isSignedIn user = true)
  /\ (forall e w1,
        initializeGoogleAPI env w = (Fail e, w1) ->
        signIn env w = (Ok false, logged w1 [ConsoleError "Google sign-in failed:" e]))
  /\ (forall e w1,
        initializeGoogleAPI env w = (Ok tt, w1) ->
        getAuthInstance env (log w1 ++ [GetAuthInstance])%list = Ok tt ->
        authSignIn env (log w1 ++ signInEffects)%list = Fail e ->
        signIn env w
        = (Ok false, logged w1 (signInEffects ++ [ConsoleError "Google sign-in failed:" e]))).
Proof.
  pose proof (signIn_stages env w) as S.
  destruct (initializeGoogleAPI env w) as [[[]|e0|] w1] eqn:I.
  - destruct (getAuthInstance env _) as [[]|e1|] eqn:G.
    + destruct (authSignIn env _) as [u|e2|] eqn:A; rewrite S; simpl;
        (split; [intros e; discriminate|]); (split; [|split; intros; congruence]).
      * split.
        -- intros E. exists w1, u. repeat split; congruence.
        -- intros (w1' & u' & E1 & _ & E3 & E4).
           inversion E1; subst w1'. congruence.
      * split; [discriminate|].
        intros (w1' & u' & E1 & _ & E3 & _). inversion E1; subst w1'. congruence.
      * split; [discriminate|].
        intros (w1' & u' & E1 & _ & E3 & _). inversion E1; subst w1'. congruence.
    + rewrite S; simpl. split; [intros e; discriminate|].
      split; [|split; intros; congruence].
      split; [discriminate|].
      intros (w1' & u' & E1 & E2 & _). inversion E1; subst w1'. congruence.
    + rewrite S; simpl. split; [intros e; discriminate|].
      split; [|split; intros; congruence].
      split; [discriminate|].
      intros (w1' & u' & E1 & E2 & _). inversion E1; subst w1'. congruence.
  - rewrite S; simpl. split; [intros e; discriminate|].
    split; [|split; intros; congruence].
    split; [discriminate|]. intros (w1' & u' & E1 & _). discriminate.
  - rewrite S; simpl. split; [intros e; discriminate|].
    split; [|split; intros; congruence].
    split; [discriminate|]. intros (w1' & u' & E1 & _). discriminate.
Qed.

Lemma C2_witness :
  exists w', signIn deniedEnv world0 = (Ok false, w').
Proof.
  eexists.
  eapply (proj2 (proj2 (proj2 (C2_signIn_never_rejects deniedEnv world0))));
    reflexivity.
Defined.

(** ** Reminder toggling *)

Lemma existsb_eqb_In m l : existsb (Z.eqb m) l = true <-> In m l.
Proof.
  rewrite existsb_exists. split.
  - intros (x & Hx & E). apply Z.eqb_eq in E. now subst.
  - intros H. exists m. split; [assumption | apply Z.eqb_refl].
Qed.

Lemma In_remove m l x : In x (filter (fun r => negb (r =? m)) l) <-> In x l /\ x <> m.
Proof.
  rewrite filter_In, negb_true_iff, Z.eqb_neq. reflexivity.
Qed.

(** A toggle of [m] leaves every other offset where it was. *)
Lemma toggleList_other m l x : x <> m -> (In x (toggleList m l) <-> In x l).
Proof.
  intros Hx. unfold toggleList. destruct (existsb (Z.eqb m) l).
  - rewrite In_remove. tauto.
  - rewrite in_app_iff. simpl. intuition congruence.
Qed.

(** A toggle of [m] flips the membership of [m]. *)
Lemma toggleList_flips m l : In m (toggleList m l) <-> ~ In m l.
Proof.
  unfold toggleList. destruct (existsb (Z.eqb m) l) eqn:E.
  - apply existsb_eqb_In in E. rewrite In_remove. tauto.
  - assert (~ In m l) by (rewrite <- existsb_eqb_In; congruence).
    rewrite in_app_iff. simpl. tauto.
Qed.

Lemma toggleList_twice m l x : In x (toggleList m (toggleList m l)) <-> In x l.
Proof.
  destruct (Z.eq_dec x m) as [->|Hx].
  - rewrite toggleList_flips, toggleList_flips.
    destruct (in_dec Z.eq_dec m l); tauto.
  - now rewrite !toggleList_other.
Qed.

(** On, then off, from a list without [m]: the very same list. *)
Lemma toggleList_on_off m l : ~ In m l -> toggleList m (toggleList m l) = l.
Proof.
  intros H. unfold toggleList at 2.
  destruct (existsb (Z.eqb m) l) eqn:E; [apply existsb_eqb_In in E; tauto|].
  unfold toggleList.
  replace (existsb (Z.eqb m) (l ++ [m])) with true
    by (symmetry; apply existsb_eqb_In, in_app_iff; simpl; auto).
  rewrite filter_app. simpl. rewrite Z.eqb_refl. simpl. rewrite app_nil_r.
  apply forallb_filter_id. apply forallb_forall. intros x Hx.
  apply negb_true_iff, Z.eqb_neq. congruence.
Qed.

(** C8.  For an offset [m] among the check boxes and any reminder list,
    two toggles of [m] in a row (on then off, or off then on) give a list
    with the same members as the original, and one toggle of [m] changes
    the membership of no other offset. *)
Theorem C8_toggleReminder_involutive m w :
  In m reminderOptions ->
  (forall x,
      In x (fd_reminders (formData (snd ((toggleReminder m ;;; toggleReminder m) w))))
      <-> In x (fd_reminders (formData w)))
  /\ (forall x, x <> m ->
      (In x (fd_reminders (formData (snd (toggleReminder m w))))
       <-> In x (fd_reminders (formData w)))).
Proof.
  intros _. split.
  - intros x. unfold toggleReminder, setFormData, bind. simpl. apply toggleList_twice.
  - intros x Hx. unfold toggleReminder, setFormData. simpl. now apply toggleList_other.
Qed.

Lemma C8_witness :
  In 15 reminderOptions
  /\ (In 10 (fd_reminders (formData (snd ((toggleReminder 15 ;;; toggleReminder 15) world0))))
      <-> In 10 (fd_reminders (formData world0)))
  /\ (In 10 (fd_reminders (formData (snd (toggleReminder 15 world0))))
      <-> In 10 (fd_reminders (formData world0))).
Proof.
  assert (H : In 15 reminderOptions) by (simpl; auto).
  split; [exact H|]. split.
  - apply (proj1 (C8_toggleReminder_involutive 15 world0 H)).
  - apply (proj2 (C8_toggleReminder_involutive 15 world0 H)). lia.
Defined.

Example toggle_on : toggleList 15 [10] = [10; 15].
Proof. reflexivity. Qed.

Example toggle_off_reorders : toggleList 10 (toggleList 10 [10; 15]) = [15; 10].
Proof. reflexivity. Qed.

(** ** A small program logic over [M] *)

Section Logic.

(** [R w w']: what a run started in [w] may have turned the world into. *)
Variable R : World -> World -> Prop.
Hypothesis R_refl : forall w, R w w.
Hypothesis R_trans : forall a b c, R a b -> R b c -> R a c.

Lemma spec_weaken {A} (Q Q' : A -> Prop) m :
  (forall a, Q a -> Q' a) -> spec R Q m -> spec R Q' m.
Proof. intros H S w. destruct (S w). split; auto. Qed.

Lemma spec_ret {A} (Q : A -> Prop) a : Q a -> spec R Q (ret a).
Proof. intros H w. split; simpl; [apply R_refl | intros ? [= <-]; exact H]. Qed.

Lemma spec_throw {A} (Q : A -> Prop) e : spec R Q (throw e).
Proof. intros w. split; simpl; [apply R_refl | discriminate]. Qed.

(** A step that only computes from the world. *)
Lemma spec_pure {A} (Q : A -> Prop) (f : World -> Outcome A) :
  (forall w a, f w = Ok a -> Q a) -> spec R Q (fun w => (f w, w)).
Proof. intros H w. split; simpl; [apply R_refl | apply H]. Qed.

Lemma spec_ask {A} (o : list Effect -> Outcome A) : spec R (fun _ => True) (ask o).
Proof. apply spec_pure. trivial. Qed.

Lemma spec_getWorld : spec R (fun _ => True) getWorld.
Proof. intros w. split; simpl; auto. Qed.

Lemma spec_bind {A B} (Q : A -> Prop) (Q' : B -> Prop) m k :
  spec R Q m -> (forall a, Q a -> spec R Q' (k a)) -> spec R Q' (bind m k).
Proof.
  intros Sm Sk w. unfold bind. destruct (Sm w) as [Hr Hq].
  destruct (m w) as [[a|e|] w1]; simpl in *.
  - destruct (Sk a (Hq a eq_refl) w1). split; eauto.
  - split; [assumption | discriminate].
  - split; [assumption | discriminate].
Qed.

Lemma spec_tryCatch {A} (Q : A -> Prop) m h :
  spec R Q m -> (forall e, spec R Q (h e)) -> spec R Q (tryCatch m h).
Proof.
  intros Sm Sh w. unfold tryCatch. destruct (Sm w) as [Hr Hq].
  destruct (m w) as [[a|e|] w1]; simpl in *.
  - split; [assumption | intros ? [= <-]; auto].
  - destruct (Sh e w1). split; eauto.
  - split; [assumption | discriminate].
Qed.

Lemma spec_tryFinally {A} (Q : A -> Prop) m f :
  spec R Q m -> spec R (fun _ => True) f -> spec R Q (tryFinally m f).
Proof.
  intros Sm Sf w. unfold tryFinally. destruct (Sm w) as [Hr Hq].
  destruct (m w) as [[a|e|] w1]; simpl in *.
  - destruct (Sf w1) as [Hf _]. destruct (f w1) as [[u|e|] w2]; simpl in *;
      (split; [eauto | try discriminate]). intros ? [= <-]. auto.
  - destruct (Sf w1) as [Hf _]. destruct (f w1) as [[u|e'|] w2]; simpl in *;
      (split; [eauto | discriminate]).
  - split; [assumption | discriminate].
Qed.

(** The callback of [gapi.load] may or may not run. *)
Lemma spec_gapiLoad {A} (Q : A -> Prop) env name (callback : M A) :
  spec R (fun _ => True) (emit (GapiLoad name)) -> spec R Q callback ->
  spec R Q (gapiLoad env name callback).
Proof.
  intros Se Sc. unfold gapiLoad. eapply spec_bind; [exact Se|].
  intros _ _ w. destruct (gapiLoadCalls env (log w)).
  - apply Sc.
  - split; simpl; [apply R_refl | discriminate].
Qed.

End Logic.

(** ** What a run may add to the log *)

Section Extends.

Variable P : Effect -> Prop.
Variable keepForm : bool.
Hypothesis P_benign : forall e, benign e = true -> P e.

Local Abbreviation mv := (moved P keepForm).

Lemma moved_refl w : mv w w.
Proof. split; [reflexivity|]. exists []. now rewrite app_nil_r. Qed.

Lemma moved_trans a b c : mv a b -> mv b c -> mv a c.
Proof.
  intros [F1 (es1 & L1 & P1)] [F2 (es2 & L2 & P2)]. split.
  - intros K. now rewrite F2, F1.
  - exists (es1 ++ es2)%list. split.
    + now rewrite L2, L1, app_assoc.
    + apply Forall_app. now split.
Qed.

Ltac spec_go :=
  repeat match goal with
    | |- forall w, mv w w => exact moved_refl
    | |- forall a b c, mv a b -> mv b c -> mv a c => exact moved_trans
    | |- spec _ _ getWorld => apply spec_getWorld
    | |- spec _ _ (ask _) => apply spec_ask
    | |- spec _ _ (throw _) => apply spec_throw
    | |- spec _ _ (ret _) => apply spec_ret; [| exact I]
    | |- spec _ _ (bind _ _) => eapply spec_bind
    | |- spec _ _ (tryCatch _ _) => apply spec_tryCatch
    | |- spec _ _ (tryFinally _ _) => apply spec_tryFinally
    | |- spec _ _ (gapiLoad _ _ _) => apply spec_gapiLoad
    | |- forall _, _ => intro
    end.

Lemma s_emit e : P e -> spec mv (fun _ => True) (emit e).
Proof.
  intros H w. split; [|trivial]. split; simpl; [reflexivity|].
  exists [e]. split; [reflexivity | now constructor].
Qed.

Lemma s_noLog (f : World -> World) :
  (forall w, log (f w) = log w) ->
  (forall w, keepForm = true -> formData (f w) = formData w) ->
  spec mv (fun _ => True) (fun w => (Ok tt, f w)).
Proof.
  intros Hl Hf w. split; [|trivial]. split; simpl; [apply Hf|].
  exists []. rewrite app_nil_r. split; [apply Hl | constructor].
Qed.

Lemma s_setIsLoading b : spec mv (fun _ => True) (setIsLoading b).
Proof. apply s_noLog; reflexivity. Qed.

Lemma s_setIsGoogleConnected b : spec mv (fun _ => True) (setIsGoogleConnected b).
Proof. apply s_noLog; reflexivity. Qed.

Lemma s_setInitialized b : spec mv (fun _ => True) (setInitialized b).
Proof. apply s_noLog; reflexivity. Qed.

Lemma s_setFormData f : keepForm = false -> spec mv (fun _ => True) (setFormData f).
Proof. intros K. apply s_noLog; [reflexivity | congruence]. Qed.

Lemma s_consoleError msg e : spec mv (fun _ => True) (consoleError msg e).
Proof. apply s_emit, P_benign. reflexivity. Qed.

Lemma s_authLoad env :
  spec mv (fun _ => True)
    (gapiLoad env "auth2"
       (emit (Auth2Init (clientId env)) ;;; ask (auth2Init env) ;;; setInitialized true)).
Proof.
  spec_go; first [apply s_emit, P_benign; reflexivity | apply s_setInitialized].
Qed.

Lemma s_initialize env : spec mv (fun _ => True) (initializeGoogleAPI env).
Proof.
  unfold initializeGoogleAPI.
  eapply spec_bind; [exact moved_trans | apply spec_getWorld; exact moved_refl |].
  intros w0 _. destruct (isInitialized w0); [apply spec_ret; [exact moved_refl | exact I]|].
  eapply spec_bind; [exact moved_trans | apply s_emit, P_benign; reflexivity |].
  intros _ _ w1. destruct (scriptLoad env (log w1)).
  - exact (s_authLoad env w1).
  - split; simpl; [apply moved_refl | discriminate].
  - split; simpl; [apply moved_refl | discriminate].
Qed.

Lemma s_signIn env : spec mv (fun _ => True) (signIn env).
Proof.
  unfold signIn. spec_go;
    first [apply s_initialize | apply s_consoleError
          | apply s_emit, P_benign; reflexivity].
Qed.

Lemma s_handleGoogleConnect env : spec mv (fun _ => True) (handleGoogleConnect env).
Proof.
  unfold handleGoogleConnect. spec_go;
    first [apply s_setIsLoading | apply s_signIn | apply s_setIsGoogleConnected
          | apply s_consoleError].
Qed.

Lemma s_createEvent env ev :
  P (EventsInsert "primary" ev) -> spec mv (fun _ => True) (createEvent env ev).
Proof.
  intros H. unfold createEvent. spec_go;
    first [apply s_initialize | apply s_emit; first [exact H | apply P_benign; reflexivity]].
Qed.

Lemma s_updateEvent env gid ev :
  P (EventsUpdate "primary" gid ev) -> spec mv (fun _ => True) (updateEvent env gid ev).
Proof.
  intros H. unfold updateEvent. spec_go;
    first [apply s_initialize | apply s_emit; first [exact H | apply P_benign; reflexivity]].
Qed.

End Extends.

(** ** Submitting the form *)

Lemma handleSubmit_not_connected env props w :
  isGoogleConnected w = false -> handleSubmit env props w = handleGoogleConnect env w.
Proof. intros H. unfold handleSubmit, bind, getWorld. now rewrite H. Qed.

Lemma handleSubmit_connected env props w :
  isGoogleConnected w = true ->
  handleSubmit env props w = submitEvent env props (formData w) w.
Proof. intros H. unfold handleSubmit, bind, getWorld. now rewrite H. Qed.

(** C6.  A submit while the connected flag is false is exactly a run of the
    connect handler (the sign-in flow): the form fields are as before, and
    nothing it adds to the log is an insert, an update, or a call of
    [onEventCreated] / [onEventUpdated]. *)
Theorem C6_submit_not_connected env props w :
  isGoogleConnected w = false ->
  handleSubmit env props w = handleGoogleConnect env w
  /\ formData (snd (handleSubmit env props w)) = formData w
  /\ exists es,
       log (snd (handleSubmit env props w)) = (log w ++ es)%list
       /\ Forall (fun e => benign e = true) es
       /\ (forall c p, ~ In (EventsInsert c p) es)
       /\ (forall c i p, ~ In (EventsUpdate c i p) es)
       /\ (forall ev, ~ In (OnEventCreated ev) es)
       /\ (forall ev, ~ In (OnEventUpdated ev) es).
Proof.
  intros H. rewrite (handleSubmit_not_connected env props w H).
  split; [reflexivity|].
  destruct (s_handleGoogleConnect (fun e => benign e = true) true (fun e H => H) env w)
    as [[F (es & L & A)] _].
  split; [now apply F|].
  exists es. split; [exact L|]. split; [exact A|].
  rewrite Forall_forall in A.
  repeat split; intros; intros Hin; apply A in Hin; discriminate.
Qed.

Lemma C6_witness :
  formData (snd (handleSubmit deniedEnv
                   {| p_lead := None; p_event := None;
                      p_onEventCreated := true; p_onEventUpdated := true |}
                   world0))
  = formData world0.
Proof.
  apply (C6_submit_not_connected deniedEnv
           {| p_lead := None; p_event := None;
              p_onEventCreated := true; p_onEventUpdated := true |} world0).
  reflexivity.
Defined.

Example submit_not_connected_run :
  log (snd (handleSubmit deniedEnv
              {| p_lead := None; p_event := None;
                 p_onEventCreated := true; p_onEventUpdated := true |} world0))
  = [AppendScript "https://apis.google.com/js/api.js"; GapiLoad "auth2";
     Auth2Init (Some "client-id"); GetAuthInstance;
     AuthSignIn "https://www.googleapis.com/auth/calendar";
     ConsoleError "Google sign-in failed:" "popup_closed_by_user"].
Proof. reflexivity. Qed.

Lemma sends_benign fd e : benign e = true -> sends fd e.
Proof. destruct e; simpl; trivial; discriminate. Qed.

Lemma buildEventData_payload env fd p : buildEventData env fd = Ok p -> payloadOf fd p.
Proof.
  unfold buildEventData. destruct (recompose env fd) as [s e].
  destruct (JsDate.toISOString s); [|discriminate].
  destruct (JsDate.toISOString e); [|discriminate].
  intros [= <-]. split; reflexivity.
Qed.

Lemma s_submitEvent env props fd :
  spec (moved (sends fd) false) (fun _ => True) (submitEvent env props fd).
Proof.
  pose proof (moved_refl (sends fd) false) as Rr.
  pose proof (moved_trans (sends fd) false) as Rt.
  pose proof (sends_benign fd) as Pb.
  assert (Em : forall e, sends fd e ->
                 spec (moved (sends fd) false) (fun _ => True) (emit e))
    by (intros e He; apply s_emit, He).
  unfold submitEvent.
  eapply spec_bind; [exact Rt | apply s_setIsLoading |]. intros _ _.
  apply spec_tryFinally; [exact Rt | | apply s_setIsLoading].
  apply spec_tryCatch; [exact Rt | | intros; apply s_consoleError, Pb].
  eapply spec_bind with (Q := fun p => payloadOf fd p); [exact Rt | |].
  { apply spec_pure; [exact Rr|]. intros _ p. apply buildEventData_payload. }
  intros p Hp.
  eapply spec_bind with (Q := fun _ => True); [exact Rt | |].
  { destruct (truthy _).
    - apply s_updateEvent; [exact Pb | simpl; auto].
    - apply s_createEvent; [exact Pb | simpl; auto]. }
  intros res _.
  eapply spec_bind; [exact Rt | apply spec_getWorld; exact Rr |]. intros w _.
  destruct res as [r|]; [|apply spec_throw; exact Rr].
  eapply spec_bind with (Q := fun _ => True); [exact Rt | |].
  { destruct (p_event props).
    - destruct (p_onEventUpdated props);
        [apply Em; exact I | apply spec_ret; [exact Rr | exact I]].
    - destruct (p_onEventCreated props);
        [apply Em; exact I | apply spec_ret; [exact Rr | exact I]]. }
  intros _ _.
  eapply spec_bind; [exact Rt | apply Em; exact I |]. intros _ _.
  apply s_setFormData. reflexivity.
Qed.

Example submit_connected_run :
  exists ev,
    log (snd (handleSubmit (happyEnv 0) newEventProps (worldReady true sampleForm)))
    = [GapiLoad "client";
       ClientInit (Some "api-key")
         ["https://www.googleapis.com/discovery/v1/apis/calendar/v3/rest"];
       EventsInsert "primary" samplePayload;
       OnEventCreated ev;
       OnOpenChange false].
Proof. eexists. vm_compute. reflexivity. Qed.

(** C4.  On a submit while signed in, every payload handed to the
    provider (by [createEvent], and by [updateEvent] alike) goes to the
    primary calendar, lists one attendee object per attendee string, and
    carries reminders with [useDefault] false and one popup override per
    checked offset, in order.  With attendees ["a@x.com"] and reminders
    [10] that is attendees [{email: "a@x.com"}] and the single override
    {method: "popup", minutes: 10}. *)
Theorem C4_submit_payload env props w :
  isGoogleConnected w = true ->
  exists es,
    log (snd (handleSubmit env props w)) = (log w ++ es)%list
    /\ (forall c p,
          In (EventsInsert c p) es \/ (exists i, In (EventsUpdate c i p) es) ->
          c = "primary"
          /\ attendees p = map (fun a => {| email := a |}) (fd_attendees (formData w))
          /\ reminders p
             = {| useDefault := false;
                  overrides := map (fun m => {| method := "popup"; minutes := m |})
                                   (fd_reminders (formData w)) |}
          /\ (fd_attendees (formData w) = ["a@x.com"] ->
              fd_reminders (formData w) = [10] ->
              attendees p = [{| email := "a@x.com" |}]
              /\ reminders p
                 = {| useDefault := false;
                      overrides := [{| method := "popup"; minutes := 10 |}] |})).
Proof.
  intros H. rewrite (handleSubmit_connected env props w H).
  destruct (s_submitEvent env props (formData w) w) as [[_ (es & L & A)] _].
  exists es. split; [exact L|].
  rewrite Forall_forall in A.
  intros c p Hin.
  assert (S : c = "primary" /\ payloadOf (formData w) p).
  { destruct Hin as [Hin | [i Hin]]; apply A in Hin; exact Hin. }
  destruct S as [Hc [Ha Hr]].
  split; [exact Hc|]. split; [exact Ha|]. split; [exact Hr|].
  intros Hat Hrm. rewrite Ha, Hr, Hat, Hrm. split; reflexivity.
Qed.

Lemma C4_witness :
  exists es,
    log (snd (handleSubmit (happyEnv 0) newEventProps (worldReady true sampleForm)))
    = (log (worldReady true sampleForm) ++ es)%list
    /\ In (EventsInsert "primary" samplePayload) es
    /\ attendees samplePayload = [{| email := "a@x.com" |}].
Proof.
  destruct (C4_submit_payload (happyEnv 0) newEventProps (worldReady true sampleForm)
              eq_refl) as (es & L & A).
  exists es. split; [exact L|].
  assert (I : In (EventsInsert "primary" samplePayload) es).
  { destruct submit_connected_run as [ev R]. rewrite R in L. simpl in L.
    subst es. simpl. auto. }
  split; [exact I|].
  apply (A "primary" samplePayload (or_introl I)); reflexivity.
Defined.

(** ** [getEvents] *)

(** C5.  [getEvents()] without arguments, once initialization has resolved
    and the client module's callback runs, sends exactly one list request:
    to the primary calendar, with [timeMin] the current time as an ISO
    string, no [timeMax], deleted events excluded, recurring events
    expanded, ordered by start time.  When the provider's response has no
    [items] field, or an empty one, the call resolves to the empty list. *)
Theorem C5_getEvents_defaults env w w1 :
  initializeGoogleAPI env w = (Ok tt, w1) ->
  gapiLoadCalls env (log w1 ++ [GapiLoad "client"])%list = true ->
  let req := defaultListRequest (now env (log w1 ++ [GapiLoad "client"])%list 0) in
  snd (getEvents env None None w) = logged w1 [GapiLoad "client"; EventsList req]
  /\ (forall r,
        eventsList env (log w1 ++ [GapiLoad "client"; EventsList req])%list
        = Ok {| result := Some r |} ->
        items r = None \/ items r = Some [] ->
        fst (getEvents env None None w) = Ok []).
Proof.
  intros I G req.
  unfold getEvents, gapiLoad, bind, emit, getWorld, ask, ret, throw, logged.
  cbv beta. rewrite I. simpl. rewrite G. simpl.
  rewrite <- !app_assoc. simpl. subst req. unfold defaultListRequest.
  split.
  - destruct (eventsList env _) as [[[[[l|]]|]]|e|]; reflexivity.
  - intros r E [N|N]; rewrite E; simpl; rewrite N; reflexivity.
Qed.

Lemma C5_witness :
  fst (getEvents (happyEnv 0) None None world0) = Ok [].
Proof.
  eapply (C5_getEvents_defaults (happyEnv 0) world0); try reflexivity.
  left. reflexivity.
Defined.

Example getEvents_request :
  log (snd (getEvents (happyEnv 0) None None (worldReady true emptyForm)))
  = [GapiLoad "client";
     EventsList {| lr_calendarId := "primary";
                   lr_timeMin := "2024-06-01T09:00:00.000Z";
                   lr_timeMax := None;
                   lr_showDeleted := false;
                   lr_singleEvents := true;
                   lr_orderBy := "startTime" |}].
Proof. reflexivity. Qed.

(** ** The disconnect endpoint *)

Lemma substring_all s : String.substring 0 (String.length s) s = s.
Proof. induction s as [|c s IH]; simpl; [reflexivity | now rewrite IH]. Qed.

Lemma substringFrom_bearer token : substringFrom 7 ("Bearer " ++ token) = token.
Proof. unfold substringFrom. simpl. rewrite Nat.sub_0_r. apply substring_all. Qed.

Lemma prefix_bearer token : String.prefix "Bearer " ("Bearer " ++ token) = true.
Proof. destruct token; reflexivity. Qed.

Section DisconnectFacts.

Variables (Store Claims : Type).
Variable jwtVerify : string -> string -> option Claims.
Variable envSecret : option string.

Local Abbreviation handler := (POST Store Claims jwtVerify envSecret).

(** C9.  The handler answers 401 when the authorization header is
    missing or does not start with "Bearer ", 401 when the token after
    the prefix fails verification against the configured secret, and the
    success message (status 200) when it verifies; in every case the
    server's store is returned as it was received. *)
Theorem C9_disconnect_validation_only (request : Request) (db : Store) :
  snd (handler request db) = db
  /\ (authorization request = None ->
      fst (handler request db) = {| status := 401; message := "Authentication required" |})
  /\ (forall h, authorization request = Some h ->
                String.prefix "Bearer " h = false ->
      fst (handler request db) = {| status := 401; message := "Authentication required" |})
  /\ (forall token, authorization request = Some ("Bearer " ++ token) ->
                    jwtVerify token (JWT_SECRET envSecret) = None ->
      fst (handler request db) = {| status := 401; message := "Invalid token" |})
  /\ (forall token claims, authorization request = Some ("Bearer " ++ token) ->
                    jwtVerify token (JWT_SECRET envSecret) = Some claims ->
      fst (handler request db)
      = {| status := 200; message := "Google account disconnected successfully" |}).
Proof.
  unfold POST. repeat split.
  - destruct (authorization request) as [h|]; [|reflexivity].
    destruct (_ || _); [reflexivity|].
    destruct (jwtVerify _ _); reflexivity.
  - intros ->. reflexivity.
  - intros h -> Hp. rewrite Hp, orb_true_r. reflexivity.
  - intros token -> Hv.
    rewrite prefix_bearer, substringFrom_bearer, Hv. reflexivity.
  - intros token claims -> Hv.
    rewrite prefix_bearer, substringFrom_bearer, Hv. reflexivity.
Qed.

End DisconnectFacts.

Lemma C9_witness :
  fst (POST nat unit onlyGoodToken None {| authorization := Some "Bearer bad" |} 7%nat)
  = {| status := 401; message := "Invalid token" |}
  /\ fst (POST nat unit onlyGoodToken None {| authorization := Some "Bearer good" |} 7%nat)
     = {| status := 200; message := "Google account disconnected successfully" |}.
Proof.
  split.
  - apply (C9_disconnect_validation_only nat unit onlyGoodToken None
             {| authorization := Some "Bearer bad" |} 7%nat) with (token := "bad");
      reflexivity.
  - apply (C9_disconnect_validation_only nat unit onlyGoodToken None
             {| authorization := Some "Bearer good" |} 7%nat)
      with (token := "good") (claims := tt); reflexivity.
Defined.

(** ** The lead list *)

Section SortFacts.
Context {A : Type}.
Variable cmp : A -> A -> option Z.

Lemma insert_perm x l : Permutation (insert cmp x l) (x :: l).
Proof.
  induction l as [|y l IH]; simpl; [reflexivity|].
  destruct (goesAfter cmp x y); [|reflexivity].
  rewrite IH. apply perm_swap.
Qed.

Lemma sort_perm l : Permutation (sort cmp l) l.
Proof.
  induction l as [|x l IH]; simpl; [reflexivity|].
  rewrite insert_perm. now constructor.
Qed.
End SortFacts.

Section LeadListFacts.

Variable toLowerCase : string -> string.
Variable localeCompare : string -> string -> Z.
Variable User : Type.
Variable filterLeadsForUser : list Lead -> option User -> list Lead.

Local Abbreviation passes := (matchesFilters toLowerCase).

(** What passing the filter callback means, filter by filter. *)
Lemma matchesFilters_true filters lead :
  passes filters lead = true <->
  (forall search, truthy (f_search filters) = Some search ->
     includes (toLowerCase search)
       (toLowerCase (l_name lead ++ " " ++ l_primaryEmail lead ++ " "
                       ++ l_primaryPhone lead)) = true)
  /\ rejects String.eqb (f_status filters) (l_status lead) = false
  /\ differs (f_assignedAgent filters) (l_assignedAgent lead) = false
  /\ rejects String.eqb (f_source filters) (l_source lead) = false
  /\ rejects String.eqb (f_propertyType filters) (l_propertyType lead) = false
  /\ differs (f_budgetRange filters) (l_budgetRange lead) = false
  /\ rejects LeadScore_eqb (f_leadScore filters) (l_leadScore lead) = false.
Proof.
  unfold matchesFilters.
  destruct (truthy (f_search filters)) as [search|].
  - destruct (includes _ _) eqn:Hs; cbn [negb].
    + destruct (rejects String.eqb (f_status filters) _),
        (differs (f_assignedAgent filters) _),
        (rejects String.eqb (f_source filters) _),
        (rejects String.eqb (f_propertyType filters) _),
        (differs (f_budgetRange filters) _),
        (rejects LeadScore_eqb (f_leadScore filters) _);
        split; try discriminate; try (intros (_ & ? & ? & ? & ? & ? & ?); discriminate).
      * intros _. repeat split. intros s [= <-]. exact Hs.
      * reflexivity.
    + split; [discriminate|]. intros [H _]. specialize (H search eq_refl). congruence.
  - destruct (rejects String.eqb (f_status filters) _),
      (differs (f_assignedAgent filters) _),
      (rejects String.eqb (f_source filters) _),
      (rejects String.eqb (f_propertyType filters) _),
      (differs (f_budgetRange filters) _),
      (rejects LeadScore_eqb (f_leadScore filters) _);
      split; try discriminate; try (intros (_ & ? & ? & ? & ? & ? & ?); discriminate).
    + intros _. repeat split. discriminate.
    + reflexivity.
Qed.

(** C10.  Whatever the filters and the sort option, the displayed list
    is a rearrangement of those permission-filtered leads that pass the
    filter callback: each displayed lead is in the permission-filtered
    list (so none from outside the user's permission scope appears) and
    satisfies every active filter, and the list is no longer than the
    permission-filtered one. *)
Theorem C10_displayed_within_permitted leads user filters sortBy :
  let displayed :=
    filteredAndSortedLeads toLowerCase localeCompare User filterLeadsForUser
      leads user filters sortBy in
  let scope := userFilteredLeads User filterLeadsForUser leads user in
  Permutation displayed (filter (matchesFilters toLowerCase filters) scope)
  /\ (forall lead, In lead displayed ->
        In lead scope /\ matchesFilters toLowerCase filters lead = true)
  /\ (List.length displayed <= List.length scope)%nat.
Proof.
  intros displayed scope.
  assert (P : Permutation displayed (filter (passes filters) scope))
    by apply sort_perm.
  split; [exact P|]. split.
  - intros lead Hin. apply filter_In. eapply Permutation_in; eauto.
  - rewrite (Permutation_length P). apply filter_length_le.
Qed.

End LeadListFacts.

(** Sorting reorders: the displayed list is a rearrangement, not a
    subsequence, of the permission-filtered one. *)
Example shown_reordered :
  filteredAndSortedLeads (fun s => s) (fun _ _ => 0) unit (fun l _ => l)
    [mkLead "a" Low; mkLead "b" High; mkLead "c" Medium] None noFilters score_high
  = [mkLead "b" High; mkLead "c" Medium; mkLead "a" Low].
Proof. reflexivity. Qed.

(** ** Decomposing an event into form fields and back *)

Example juneEvent_iso :
  JsDate.toISOString (ce_startDateTime juneEvent) = Some "2024-06-01T09:00:00.000Z"
  /\ JsDate.toISOString (ce_endDateTime juneEvent) = Some "2024-06-01T10:00:00.000Z".
Proof. split; reflexivity. Qed.

Lemma hhmmOk_all : forallb hhmmOk (map Z.of_nat (seq 0 1440)) = true.
Proof. vm_compute. reflexivity. Qed.

Lemma parse_hhmm k :
  0 <= k < 1440 ->
  JsDate.parseLocalDateTime ("2024-06-01" ++ "T" ++ hhmm k)
  = Some (2024, 6, 1, k / 60, k mod 60).
Proof.
  intros Hk.
  assert (Hin : In k (map Z.of_nat (seq 0 1440))).
  { rewrite <- (Z2Nat.id k) by lia. apply in_map, in_seq. lia. }
  pose proof (proj1 (forallb_forall _ _) hhmmOk_all k Hin) as H.
  unfold hhmmOk in H.
  destruct (JsDate.parseLocalDateTime _) as [[[[[y m] d] h] mi]|]; [|discriminate].
  rewrite !andb_true_iff, !Z.eqb_eq in H.
  destruct H as ((((-> & ->) & ->) & ->) & ->). reflexivity.
Qed.

Lemma newDate_hhmm env off k :
  fixedZone env off -> 0 <= k < 1440 ->
  newDate env ("2024-06-01" ++ "T" ++ hhmm k)
  = Some (19875 * 86400000 + (k - off) * 60000).
Proof.
  intros Hz Hk. unfold newDate, JsDate.parse. rewrite (parse_hhmm k Hk), Hz.
  f_equal. change (JsDate.days_from_civil 2024 6 1) with 19875.
  unfold JsDate.msPerDay, JsDate.msPerMinute.
  pose proof (Z.div_mod k 60). lia.
Qed.

Lemma timeOfDay_fixed env off ms :
  fixedZone env off ->
  timeOfDay env (Some ms) = hhmm ((ms + off * 60000) mod 86400000 / 60000).
Proof.
  intros Hz. unfold timeOfDay, JsDate.toTimeString, JsDate.clock, hhmm, JsDate.pad2.
  rewrite Hz. unfold JsDate.msPerDay. cbn [append String.substring].
  set (x := (ms + off * 60000) mod 86400000).
  assert (E : x / 3600000 = x / 60000 / 60)
    by (change 3600000 with (60000 * 60); symmetry; apply Z.div_div; lia).
  rewrite E. reflexivity.
Qed.

(** The minute of the local day of an instant that is [m] minutes into
    the UTC day 2024-06-01. *)
Lemma local_minute off m :
  ((19875 * 86400000 + m * 60000) + off * 60000) mod 86400000 / 60000
  = (m + off) mod 1440.
Proof.
  replace ((19875 * 86400000 + m * 60000) + off * 60000)
    with (60000 * (m + off + 19875 * 1440)) by lia.
  change 86400000 with (60000 * 1440).
  rewrite Z.mul_mod_distr_l by lia.
  rewrite Z.mul_comm, Z.div_mul by lia.
  apply Z.mod_add. lia.
Qed.


(** Fields decomposed in UTC and recomposed in another fixed-offset zone:
    both instants move by the offset. *)
Lemma roundTripAcross_june envOpen envSubmit off :
  fixedZone envOpen 0 -> fixedZone envSubmit off ->
  roundTripAcross envOpen envSubmit juneEvent
  = Some (Some (1717232400000 - off * 60000), Some (1717236000000 - off * 60000)).
Proof.
  intros Ho Hs. unfold roundTripAcross, decompose.
  change (dateOfDay (ce_startDateTime juneEvent)) with (Ok "2024-06-01").
  unfold recompose. cbn [fd_date fd_startTime fd_endTime].
  change (ce_startDateTime juneEvent) with (Some (19875 * 86400000 + 540 * 60000)).
  change (ce_endDateTime juneEvent) with (Some (19875 * 86400000 + 600 * 60000)).
  rewrite !(timeOfDay_fixed envOpen 0) by assumption.
  rewrite !local_minute.
  rewrite !(newDate_hhmm envSubmit off) by (assumption || (apply Z.mod_pos_bound; lia)).
  rewrite !Z.add_0_r, !Z.mod_small by lia.
  assert (E1 : 19875 * 86400000 + (540 - off) * 60000 = 1717232400000 - off * 60000)
    by lia.
  assert (E2 : 19875 * 86400000 + (600 - off) * 60000 = 1717236000000 - off * 60000)
    by lia.
  rewrite E1, E2. reflexivity.
Qed.





(** Ten hours west of UTC the start comes back a day late. *)
Example roundTrip_honolulu :
  roundTrip (happyEnv (-36000000)) juneEvent
  = Some (Some (1717232400000 + 86400000), Some 1717236000000).
Proof. vm_compute. reflexivity. Qed.

Example decompose_honolulu :
  option_map (fun fd => (fd_date fd, fd_startTime fd, fd_endTime fd))
    (match decompose (happyEnv (-36000000)) juneEvent with
     | Ok fd => Some fd | _ => None end)
  = Some ("2024-06-01", "23:00", "00:00").
Proof. vm_compute. reflexivity. Qed.

(* ===================================================================== *)
(** * Further properties of the connector                                *)
(* ===================================================================== *)

(** The first initialization, outcome by outcome. *)
Lemma initialize_uninit env w :
  isInitialized w = false ->
  initializeGoogleAPI env w
  = match scriptLoad env (log w ++ firstn 1 (initEffects env))%list with
    | ScriptError e => (Fail e, logged w (firstn 1 (initEffects env)))
    | ScriptSilent => (Pending, logged w (firstn 1 (initEffects env)))
    | ScriptLoaded =>
        if gapiLoadCalls env (log w ++ firstn 2 (initEffects env))%list
        then match auth2Init env (log w ++ initEffects env)%list with
             | Ok _ => (Ok tt, markReady (logged w (initEffects env)))
             | Fail e => (Fail e, logged w (initEffects env))
             | Pending => (Pending, logged w (initEffects env))
             end
        else (Pending, logged w (firstn 2 (initEffects env)))
    end.
Proof.
  intros H. unfold initializeGoogleAPI, gapiLoad, setInitialized, initEffects,
    markReady, logged. run. rewrite H. simpl.
  destruct (scriptLoad env _); try (rewrite ?H; reflexivity).
  rewrite <- ?app_assoc, ?H. reflexivity.
Qed.

(** Whatever happens, initialization adds a prefix of [initEffects]. *)
Lemma initialize_log env w :
  exists n, log (snd (initializeGoogleAPI env w))
            = (log w ++ firstn n (initEffects env))%list.
Proof.
  destruct (isInitialized w) eqn:H.
  - exists 0%nat. rewrite initialize_when_ready by assumption. simpl.
    now rewrite app_nil_r.
  - rewrite initialize_uninit by assumption.
    destruct (scriptLoad env _); [|exists 1%nat; reflexivity ..].
    destruct (gapiLoadCalls env _); [|exists 2%nat; reflexivity].
    destruct (auth2Init env _); exists 3%nat; reflexivity.
Qed.

(** X1.  An initialization that does not resolve (script error, auth init
    rejection, a callback that never comes) leaves the connector
    uninitialized: nothing records the failed attempt, and the next call
    starts over by appending the script element again. *)
Theorem initialize_failure_retries env w o w' :
  initializeGoogleAPI env w = (o, w') ->
  o <> Ok tt ->
  isInitialized w' = false
  /\ exists es,
       log (snd (initializeGoogleAPI env w'))
       = (log w' ++ AppendScript "https://apis.google.com/js/api.js" :: es)%list.
Proof.
  intros E Ho.
  assert (Hw : isInitialized w = false).
  { destruct (isInitialized w) eqn:H; [|reflexivity].
    rewrite initialize_when_ready in E by assumption. congruence. }
  assert (H' : isInitialized w' = false).
  { rewrite initialize_uninit in E by assumption.
    destruct (scriptLoad env _); [|inversion E; subst; exact Hw ..].
    destruct (gapiLoadCalls env _); [|inversion E; subst; exact Hw].
    destruct (auth2Init env _) as [[]|e|]; inversion E; subst;
      [congruence | exact Hw | exact Hw]. }
  split; [exact H'|].
  rewrite (initialize_uninit env w' H').
  destruct (scriptLoad env _); [|eexists; reflexivity ..].
  destruct (gapiLoadCalls env _); [|eexists; reflexivity].
  destruct (auth2Init env _); eexists; reflexivity.
Qed.

Lemma initialize_failure_retries_witness :
  isInitialized (snd (initializeGoogleAPI offlineEnv world0)) = false.
Proof.
  apply (initialize_failure_retries offlineEnv world0
           (Fail "net::ERR_INTERNET_DISCONNECTED")
           (snd (initializeGoogleAPI offlineEnv world0))).
  - reflexivity.
  - discriminate.
Defined.

(** X2.  From an uninitialized connector, [initialize()] resolves exactly
    when the script loads, the auth module's callback runs and the auth
    init resolves; it rejects exactly on a script error or a rejected auth
    init; and when the script loads but the auth module's callback never
    runs it stays pending for ever, without rejecting. *)
Theorem initialize_outcomes env w :
  isInitialized w = false ->
  let s := scriptLoad env (log w ++ firstn 1 (initEffects env))%list in
  let c := gapiLoadCalls env (log w ++ firstn 2 (initEffects env))%list in
  let a := auth2Init env (log w ++ initEffects env)%list in
  (fst (initializeGoogleAPI env w) = Ok tt
   <-> s = ScriptLoaded /\ c = true /\ a = Ok tt)
  /\ (forall e, fst (initializeGoogleAPI env w) = Fail e
      <-> s = ScriptError e \/ (s = ScriptLoaded /\ c = true /\ a = Fail e))
  /\ (s = ScriptLoaded -> c = false -> fst (initializeGoogleAPI env w) = Pending).
Proof.
  intros H s c a. rewrite (initialize_uninit env w H). fold s c a.
  destruct s as [|e0|]; [destruct c; [destruct a as [[]|e1|]|]| |]; simpl;
    repeat split; try discriminate; try congruence;
    try (intros (? & ? & ?); congruence);
    try (intros [?|(? & ? & ?)]; congruence);
    try (intros [= <-]; auto).
Qed.

Lemma initialize_outcomes_witness :
  fst (initializeGoogleAPI (happyEnv 0) world0) = Ok tt.
Proof.
  apply (initialize_outcomes (happyEnv 0) world0 eq_refl).
  repeat split.
Defined.

(** An operation that starts by awaiting initialization. *)
Lemma after_initialize {A} env (k : M A) w :
  (initializeGoogleAPI env ;;; k) w
  = match initializeGoogleAPI env w with
    | (Ok _, w1) => k w1
    | (Fail e, w1) => (Fail e, w1)
    | (Pending, w1) => (Pending, w1)
    end.
Proof. reflexivity. Qed.

(** The effects of [initialize; gapi.load('client', body)], when [body]
    adds a prefix of [es]. *)
Lemma client_call_log {A} env (body : M A) es w :
  (forall w1, exists k, log (snd (body w1)) = (log w1 ++ firstn k es)%list) ->
  exists n k,
    log (snd ((initializeGoogleAPI env ;;; gapiLoad env "client" body) w))
    = (log w ++ firstn n (initEffects env) ++ firstn k (GapiLoad "client" :: es))%list
    /\ (0 < k -> n = 0 \/ n = 3)%nat.
Proof.
  intros Hb. rewrite after_initialize.
  destruct (isInitialized w) eqn:Hi.
  - rewrite initialize_when_ready by assumption.
    unfold gapiLoad. run. destruct (gapiLoadCalls env _).
    + destruct (Hb (logged w [GapiLoad "client"])) as [k Hk].
      exists 0%nat, (S k). split; [|auto]. unfold logged in Hk. simpl in *.
      rewrite Hk, <- app_assoc. reflexivity.
    + exists 0%nat, 1%nat. split; [reflexivity | auto].
  - rewrite initialize_uninit by assumption.
    destruct (scriptLoad env _);
      [| exists 1%nat, 0%nat; split; [simpl; rewrite ?app_nil_r; reflexivity | lia] ..].
    destruct (gapiLoadCalls env (log w ++ firstn 2 (initEffects env)));
      [| exists 2%nat, 0%nat; split; [simpl; rewrite ?app_nil_r; reflexivity | lia]].
    destruct (auth2Init env _) as [[]|e|];
      [| exists 3%nat, 0%nat; split; [simpl; rewrite ?app_nil_r; reflexivity | lia] ..].
    unfold gapiLoad. run. destruct (gapiLoadCalls env _).
    + destruct (Hb (logged (markReady (logged w (initEffects env))) [GapiLoad "client"]))
        as [k Hk].
      exists 3%nat, (S k). split; [|auto]. unfold logged, markReady in Hk. simpl in *.
      rewrite Hk, <- !app_assoc. reflexivity.
    + exists 3%nat, 1%nat. split; [|auto]. simpl. rewrite <- ?app_assoc. reflexivity.
Qed.

(** X3.  In every run, what [createEvent], [updateEvent], [deleteEvent]
    and [getEvents] add to the log is a prefix of the initialization
    effects followed by a prefix of the operation's own sequence: the
    client module load, then ([createEvent] only) the client init, then the
    single request, to the primary calendar, with the given id and the
    given payload untouched.  A request is sent only after the connector
    was, or has just become, initialized; [updateEvent], [deleteEvent] and
    [getEvents] never run the client init. *)
Theorem connector_call_effects env w ev gid tmin tmax :
  (exists n k,
      log (snd (createEvent env ev w))
      = (log w ++ firstn n (initEffects env)
           ++ firstn k [GapiLoad "client";
                        ClientInit (apiKeyCfg env)
                          ["https://www.googleapis.com/discovery/v1/apis/calendar/v3/rest"];
                        EventsInsert "primary" ev])%list
      /\ (0 < k -> n = 0 \/ n = 3)%nat)
  /\ (exists n k,
      log (snd (updateEvent env gid ev w))
      = (log w ++ firstn n (initEffects env)
           ++ firstn k [GapiLoad "client"; EventsUpdate "primary" gid ev])%list
      /\ (0 < k -> n = 0 \/ n = 3)%nat)
  /\ (exists n k,
      log (snd (deleteEvent env gid w))
      = (log w ++ firstn n (initEffects env)
           ++ firstn k [GapiLoad "client"; EventsDelete "primary" gid])%list
      /\ (0 < k -> n = 0 \/ n = 3)%nat)
  /\ (exists n k t,
      log (snd (getEvents env tmin tmax w))
      = (log w ++ firstn n (initEffects env)
           ++ firstn k [GapiLoad "client"; EventsList (listRequest tmin tmax t)])%list
      /\ (0 < k -> n = 0 \/ n = 3)%nat).
Proof.
  split; [|split; [|split]].
  - apply client_call_log. intros w1. run.
    destruct (clientInit env _); [|exists 1%nat; reflexivity ..].
    simpl. exists 2%nat. rewrite <- ?app_assoc. reflexivity.
  - apply client_call_log. intros w1. run. exists 1%nat. reflexivity.
  - apply client_call_log. intros w1. run. exists 1%nat. reflexivity.
  - assert (H : forall w1, exists t,
                 log (snd ((w2 <- getWorld ;;
                            emit (EventsList (listRequest tmin tmax (now env (log w2) 0))) ;;;
                            response <- ask (eventsList env) ;;
                            match result response with
                            | None => throw "TypeError: response.result is undefined"
                            | Some r => match items r with
                                        | Some l => ret l
                                        | None => ret []
                                        end
                            end) w1))
                 = (log w1 ++ [EventsList (listRequest tmin tmax t)])%list).
    { intros w1. exists (now env (log w1) 0). run.
      destruct (eventsList env _) as [[[[[l|]]|]]|e|]; reflexivity. }
    unfold getEvents. rewrite after_initialize.
    destruct (isInitialized w) eqn:Hi.
    + rewrite initialize_when_ready by assumption.
      unfold gapiLoad. unfold bind at 1. simpl.
      destruct (gapiLoadCalls env _).
      * destruct (H (snd (emit (GapiLoad "client") w))) as [t Ht].
        exists 0%nat, 2%nat, t. split; [|auto].
        unfold listRequest in *. simpl in *. rewrite Ht, <- app_assoc. reflexivity.
      * exists 0%nat, 1%nat, 0. split; [reflexivity | auto].
    + rewrite initialize_uninit by assumption.
      destruct (scriptLoad env _);
        [| exists 1%nat, 0%nat, 0; split; [simpl; rewrite ?app_nil_r; reflexivity | lia] ..].
      destruct (gapiLoadCalls env (log w ++ firstn 2 (initEffects env)));
        [| exists 2%nat, 0%nat, 0; split; [simpl; rewrite ?app_nil_r; reflexivity | lia]].
      destruct (auth2Init env _) as [[]|e|];
        [| exists 3%nat, 0%nat, 0; split; [simpl; rewrite ?app_nil_r; reflexivity | lia] ..].
      unfold gapiLoad. unfold bind at 1. simpl.
      destruct (gapiLoadCalls env _).
      * destruct (H (snd (emit (GapiLoad "client")
                            (markReady (logged w (initEffects env)))))) as [t Ht].
        exists 3%nat, 2%nat, t. split; [|auto].
        unfold listRequest in *. simpl in *. rewrite Ht, <- !app_assoc. reflexivity.
      * exists 3%nat, 1%nat, 0. split; [|auto]. simpl. rewrite <- ?app_assoc. reflexivity.
Qed.

(** X4.  With the connector initialized and the client module loaded,
    [createEvent] rejects with the client init's error, sending no insert,
    when the client init rejects; otherwise it sends one insert and settles
    exactly as that insert does (resolving with the provider's answer,
    rejecting with its error). *)
Theorem createEvent_outcome env ev w w1 :
  initializeGoogleAPI env w = (Ok tt, w1) ->
  gapiLoadCalls env (log w1 ++ [GapiLoad "client"])%list = true ->
  let init := ClientInit (apiKeyCfg env)
                ["https://www.googleapis.com/discovery/v1/apis/calendar/v3/rest"] in
  (forall e,
      clientInit env (log w1 ++ [GapiLoad "client"; init])%list = Fail e ->
      createEvent env ev w = (Fail e, logged w1 [GapiLoad "client"; init]))
  /\ (clientInit env (log w1 ++ [GapiLoad "client"; init])%list = Ok tt ->
      createEvent env ev w
      = (eventsInsert env
           (log w1 ++ [GapiLoad "client"; init; EventsInsert "primary" ev])%list,
         logged w1 [GapiLoad "client"; init; EventsInsert "primary" ev])).
Proof.
  intros I G init. subst init.
  unfold createEvent. rewrite after_initialize, I.
  unfold gapiLoad, logged. run. rewrite G. simpl. rewrite <- ?app_assoc. simpl.
  split.
  - intros e E. rewrite E. reflexivity.
  - intros E. rewrite E. simpl. rewrite <- ?app_assoc. simpl.
    destruct (eventsInsert env _); reflexivity.
Qed.

Lemma createEvent_outcome_witness :
  fst (createEvent (happyEnv 0) samplePayload world0) = Ok (Some {| res_id := Some "g-1" |}).
Proof.
  pose proof (proj2 (createEvent_outcome (happyEnv 0) samplePayload world0
                       (snd (initializeGoogleAPI (happyEnv 0) world0))
                       eq_refl eq_refl) eq_refl) as H.
  rewrite H. reflexivity.
Defined.

(** X5.  With the connector initialized and the client module loaded,
    [getEvents(timeMin, timeMax)] sends one list request: a non-empty
    [timeMin] goes out as given and an empty one is replaced by the
    current time, like a missing one; [timeMax] goes out as given.  It
    resolves with the provider's [items] exactly as received (no sorting
    or filtering of its own), with the empty list when [items] is missing,
    and rejects when the response has no [result] or the request rejects. *)
Theorem getEvents_result env tmin tmax w w1 :
  initializeGoogleAPI env w = (Ok tt, w1) ->
  gapiLoadCalls env (log w1 ++ [GapiLoad "client"])%list = true ->
  let req := listRequest tmin tmax (now env (log w1 ++ [GapiLoad "client"])%list 0) in
  getEvents env tmin tmax w
  = (listedItems (eventsList env (log w1 ++ [GapiLoad "client"; EventsList req])%list),
     logged w1 [GapiLoad "client"; EventsList req])
  /\ (forall s, tmin = Some s -> s <> "" -> lr_timeMin req = s)
  /\ (tmin = Some "" \/ tmin = None ->
      lr_timeMin req
      = JsDate.isoString (now env (log w1 ++ [GapiLoad "client"])%list 0))
  /\ lr_timeMax req = tmax.
Proof.
  intros I G req. subst req. split; [|split; [|split]].
  - unfold getEvents. rewrite after_initialize, I.
    unfold gapiLoad, logged, listRequest, listedItems. run. rewrite G. simpl.
    rewrite <- ?app_assoc. simpl.
    destruct (eventsList env _) as [[[[[l|]]|]]|e|]; reflexivity.
  - intros s -> Hs. simpl. apply String.eqb_neq in Hs. now rewrite Hs.
  - intros [->| ->]; reflexivity.
  - reflexivity.
Qed.

Lemma getEvents_result_witness :
  fst (getEvents (happyEnv 0) (Some "") None world0) = Ok [].
Proof.
  pose proof (proj1 (getEvents_result (happyEnv 0) (Some "") None world0
                       (snd (initializeGoogleAPI (happyEnv 0) world0))
                       eq_refl eq_refl)) as H.
  rewrite H. reflexivity.
Defined.

(** X6.  [signOut()] does not look at the initialized flag: it fetches the
    auth instance in every state, and unlike [signIn] it lets failures
    through: it rejects when fetching the instance throws and when the
    library's sign-out rejects. *)
Theorem signOut_unguarded env w :
  (exists es, log (snd (signOut env w)) = (log w ++ GetAuthInstance :: es)%list)
  /\ (forall e, getAuthInstance env (log w ++ [GetAuthInstance])%list = Fail e ->
        signOut env w = (Fail e, logged w [GetAuthInstance]))
  /\ (getAuthInstance env (log w ++ [GetAuthInstance])%list = Ok tt ->
        signOut env w
        = (authSignOut env (log w ++ [GetAuthInstance; AuthSignOut])%list,
           logged w [GetAuthInstance; AuthSignOut])).
Proof.
  unfold signOut, logged. run. split; [|split].
  - destruct (getAuthInstance env _); simpl; [|eexists; reflexivity ..].
    rewrite <- ?app_assoc. eexists. reflexivity.
  - intros e E. rewrite E. reflexivity.
  - intros E. rewrite E. simpl. rewrite <- ?app_assoc. simpl.
    destruct (authSignOut env _); reflexivity.
Qed.

Lemma signOut_unguarded_witness :
  signOut offlineEnv world0
  = (Fail "TypeError: gapi is undefined", logged world0 [GetAuthInstance]).
Proof.
  apply (signOut_unguarded offlineEnv world0). reflexivity.
Defined.

(** ** The connector and the modal's state *)

Lemma keepsPage_refl w : keepsPage w w.
Proof. repeat split; auto. Qed.

Lemma keepsPage_trans a b c : keepsPage a b -> keepsPage b c -> keepsPage a c.
Proof.
  intros (F1 & L1 & C1 & I1) (F2 & L2 & C2 & I2).
  repeat split; try congruence. auto.
Qed.

Lemma kp_emit e : spec keepsPage (fun _ => True) (emit e).
Proof. intros w. split; [|trivial]. repeat split; auto. Qed.

Lemma kp_raise : spec keepsPage (fun _ => True) (setInitialized true).
Proof. intros w. split; [|trivial]. repeat split; auto. Qed.

Ltac kp_go :=
  repeat match goal with
    | |- forall w, keepsPage w w => exact keepsPage_refl
    | |- forall a b c, keepsPage a b -> keepsPage b c -> keepsPage a c =>
        exact keepsPage_trans
    | |- spec _ _ getWorld => apply spec_getWorld
    | |- spec _ _ (ask _) => apply spec_ask
    | |- spec _ _ (throw _) => apply spec_throw
    | |- spec _ _ (ret _) => apply spec_ret; [| exact I]
    | |- spec _ _ (emit _) => apply kp_emit
    | |- spec _ _ (consoleError _ _) => apply kp_emit
    | |- spec _ _ (setInitialized true) => apply kp_raise
    | |- spec _ _ (bind _ _) => eapply spec_bind
    | |- spec _ _ (tryCatch _ _) => apply spec_tryCatch
    | |- spec _ _ (tryFinally _ _) => apply spec_tryFinally
    | |- spec _ _ (gapiLoad _ _ _) => apply spec_gapiLoad
    | |- forall _, _ => intro
    end.

Lemma kp_initialize env : spec keepsPage (fun _ => True) (initializeGoogleAPI env).
Proof.
  intros w. split; [|trivial].
  destruct (isInitialized w) eqn:H.
  - rewrite initialize_when_ready by assumption. apply keepsPage_refl.
  - rewrite initialize_uninit by assumption.
    destruct (scriptLoad env _); [|repeat split; simpl; congruence ..].
    destruct (gapiLoadCalls env _); [|repeat split; simpl; congruence].
    destruct (auth2Init env _); repeat split; simpl; congruence.
Qed.

Lemma kp_createEvent env ev : spec keepsPage (fun _ => True) (createEvent env ev).
Proof. unfold createEvent. kp_go. apply kp_initialize. Qed.

Lemma kp_updateEvent env gid ev :
  spec keepsPage (fun _ => True) (updateEvent env gid ev).
Proof. unfold updateEvent. kp_go. apply kp_initialize. Qed.

Lemma kp_deleteEvent env gid : spec keepsPage (fun _ => True) (deleteEvent env gid).
Proof. unfold deleteEvent. kp_go. apply kp_initialize. Qed.

Lemma kp_getEvents env tmin tmax :
  spec keepsPage (fun _ => True) (getEvents env tmin tmax).
Proof.
  unfold getEvents. kp_go; try apply kp_initialize.
  destruct (result _) as [r|]; [destruct (items r)|]; kp_go.
Qed.

Lemma kp_signIn env : spec keepsPage (fun _ => True) (signIn env).
Proof. unfold signIn. kp_go. apply kp_initialize. Qed.

Lemma kp_signOut env : spec keepsPage (fun _ => True) (signOut env).
Proof. unfold signOut. kp_go. Qed.

Lemma kp_isSignedIn env : spec keepsPage (fun _ => True) (isSignedIn env).
Proof.
  unfold isSignedIn. eapply spec_bind; [exact keepsPage_trans | kp_go |].
  intros w0 _. destruct (negb (isInitialized w0)); kp_go.
Qed.

(** X7.  No operation of the connector touches the modal's state (form
    fields, loading flag, connected flag), and none ever lowers the
    initialized flag: once raised it stays raised, through failures too. *)
Theorem connector_keeps_page env w ev gid tmin tmax :
  keepsPage w (snd (initializeGoogleAPI env w))
  /\ keepsPage w (snd (signIn env w))
  /\ keepsPage w (snd (signOut env w))
  /\ keepsPage w (snd (isSignedIn env w))
  /\ keepsPage w (snd (createEvent env ev w))
  /\ keepsPage w (snd (updateEvent env gid ev w))
  /\ keepsPage w (snd (deleteEvent env gid w))
  /\ keepsPage w (snd (getEvents env tmin tmax w)).
Proof.
  repeat split; first
    [ apply kp_initialize | apply kp_signIn | apply kp_signOut | apply kp_isSignedIn
    | apply kp_createEvent | apply kp_updateEvent | apply kp_deleteEvent
    | apply kp_getEvents ].
Qed.

(* ===================================================================== *)
(** * Further properties of the form                                     *)
(* ===================================================================== *)

(** ** Attendees and reminders *)

Lemma includes_at_nonempty s : includes "@" s = true -> s <> "".
Proof. intros H ->. discriminate. Qed.

(** X8.  [addAttendee] appends the answer at the end of the list when it
    contains an "@", duplicates included, and otherwise (cancelled prompt,
    empty answer, no "@") changes nothing; so when every attendee contains
    an "@", that is still the case after any [addAttendee], and after any
    [removeAttendee]. *)
Theorem addAttendee_validates answer w :
  (attendeesAfter (addAttendee answer) w
   = match answer with
     | Some email => if includes "@" email
                     then (fd_attendees (formData w) ++ [email])%list
                     else fd_attendees (formData w)
     | None => fd_attendees (formData w)
     end)
  /\ (Forall (fun a => includes "@" a = true) (fd_attendees (formData w)) ->
      Forall (fun a => includes "@" a = true) (attendeesAfter (addAttendee answer) w)
      /\ forall e, Forall (fun a => includes "@" a = true)
                          (attendeesAfter (removeAttendee e) w)).
Proof.
  unfold attendeesAfter, addAttendee, truthy. split.
  - destruct answer as [email|]; [|reflexivity].
    destruct (String.eqb email "") eqn:E.
    + apply String.eqb_eq in E. subst. reflexivity.
    + destruct (includes "@" email); reflexivity.
  - intros H. split.
    + destruct answer as [email|]; [|exact H].
      destruct (String.eqb email ""); [exact H|].
      destruct (includes "@" email) eqn:E; [|exact H].
      simpl. apply Forall_app. split; [exact H | now constructor].
    + intros e. simpl. rewrite Forall_forall in *. intros a Ha.
      apply filter_In in Ha. apply H, Ha.
Qed.

Lemma addAttendee_validates_witness :
  attendeesAfter (addAttendee (Some "not-an-address")) (worldReady true sampleForm)
  = ["a@x.com"]
  /\ Forall (fun a => includes "@" a = true)
       (attendeesAfter (addAttendee (Some "b@y.org")) (worldReady true sampleForm)).
Proof.
  split.
  - apply (proj1 (addAttendee_validates (Some "not-an-address")
                    (worldReady true sampleForm))).
  - apply (proj2 (addAttendee_validates (Some "b@y.org") (worldReady true sampleForm))).
    repeat constructor.
Defined.

Lemma remove_absent e l :
  ~ In e l -> filter (fun a => negb (String.eqb a e)) l = l.
Proof.
  intros H. apply forallb_filter_id, forallb_forall. intros a Ha.
  apply negb_true_iff, String.eqb_neq. congruence.
Qed.

(** X9.  [removeAttendee e] removes every occurrence of [e] and nothing
    else, keeping the order of the rest; a second removal changes nothing;
    and removing an address right after adding it gives back the list as
    it was, provided the address was not on it before. *)
Theorem removeAttendee_exact e w :
  (forall a, In a (attendeesAfter (removeAttendee e) w)
             <-> In a (fd_attendees (formData w)) /\ a <> e)
  /\ attendeesAfter (removeAttendee e ;;; removeAttendee e) w
     = attendeesAfter (removeAttendee e) w
  /\ (~ In e (fd_attendees (formData w)) ->
      attendeesAfter (removeAttendee e) w = fd_attendees (formData w)
      /\ (includes "@" e = true ->
          attendeesAfter (addAttendee (Some e) ;;; removeAttendee e) w
          = fd_attendees (formData w))).
Proof.
  unfold attendeesAfter. split; [|split].
  - intros a. simpl. rewrite filter_In, negb_true_iff, String.eqb_neq. reflexivity.
  - simpl. apply remove_absent. intros H. apply filter_In in H.
    destruct H as [_ H]. rewrite String.eqb_refl in H. discriminate.
  - intros H. split; [simpl; now apply remove_absent|].
    intros Hat. unfold addAttendee, truthy.
    pose proof (includes_at_nonempty e Hat) as Hne.
    apply String.eqb_neq in Hne. rewrite Hne, Hat. simpl.
    rewrite filter_app. simpl. rewrite String.eqb_refl. simpl.
    rewrite app_nil_r. now apply remove_absent.
Qed.

Lemma removeAttendee_exact_witness :
  attendeesAfter (addAttendee (Some "b@y.org") ;;; removeAttendee "b@y.org")
    (worldReady true sampleForm)
  = ["a@x.com"].
Proof.
  apply (removeAttendee_exact "b@y.org" (worldReady true sampleForm)).
  - simpl. intros [H|[]]. discriminate.
  - reflexivity.
Defined.

Lemma toggleList_NoDup m l : NoDup l -> NoDup (toggleList m l).
Proof.
  intros H. unfold toggleList. destruct (existsb (Z.eqb m) l) eqn:E.
  - now apply NoDup_filter.
  - assert (~ In m l) by (rewrite <- existsb_eqb_In; congruence).
    apply NoDup_app.
    + exact H.
    + constructor; [intros [] | constructor].
    + intros x Hx [<-|[]]. tauto.
Qed.

(** X10.  Toggling never duplicates: when the reminder list has no
    repeated offset, it has none after a toggle, so the payload built from
    it has no repeated override either; and toggling an offset that is
    not on the list on and off again gives back the very same list, order
    included. *)
Theorem toggleReminder_keeps_distinct env m w :
  NoDup (fd_reminders (formData w)) ->
  NoDup (remindersAfter (toggleReminder m) w)
  /\ (forall p, buildEventData env (formData (snd (toggleReminder m w))) = Ok p ->
        NoDup (overrides (reminders p)))
  /\ (~ In m (fd_reminders (formData w)) ->
        remindersAfter (toggleReminder m ;;; toggleReminder m) w
        = fd_reminders (formData w)).
Proof.
  intros H. unfold remindersAfter.
  assert (N : NoDup (fd_reminders (formData (snd (toggleReminder m w)))))
    by (simpl; now apply toggleList_NoDup).
  split; [exact N|]. split.
  - intros p Hp. apply buildEventData_payload in Hp. destruct Hp as [_ Hr].
    rewrite Hr. simpl. apply Finite.Injective_map_NoDup; [|exact N].
    intros a b [= E]. exact E.
  - intros Hm. simpl. now apply toggleList_on_off.
Qed.

Lemma toggleReminder_keeps_distinct_witness :
  NoDup (remindersAfter (toggleReminder 30) world0).
Proof.
  apply (toggleReminder_keeps_distinct (happyEnv 0) 30 world0).
  simpl. repeat constructor. intros [].
Defined.

(** ** The connected submit, outcome by outcome *)

Lemma submitEvent_stages env props fd w :
  submitEvent env props fd w
  = match buildEventData env fd with
    | Ok p =>
        match providerCall env props p (snd (setIsLoading true w)) with
        | (Ok (Some r), w2) =>
            (Ok tt,
             finished w2 emptyForm
               (callbackEffects props (localRecord env props fd r (log w2))
                  ++ [OnOpenChange false]))
        | (Ok None, w2) =>
            (Ok tt,
             finished w2 (formData w2)
               [ConsoleError "Failed to create/update event:"
                  "TypeError: result is undefined"])
        | (Fail e, w2) =>
            (Ok tt,
             finished w2 (formData w2) [ConsoleError "Failed to create/update event:" e])
        | (Pending, w2) => (Pending, w2)
        end
    | Fail e =>
        (Ok tt, finished w (formData w) [ConsoleError "Failed to create/update event:" e])
    | Pending => (Pending, snd (setIsLoading true w))
    end.
Proof.
  unfold submitEvent, providerCall, finished, callbackEffects, localRecord,
    consoleError, resetForm, setFormData, setIsLoading, tryFinally.
  run.
  destruct (buildEventData env fd) as [p|e|]; try reflexivity.
  match goal with
  | |- context [match ?c with (_, _) => _ end] =>
      destruct c as [[[r|]|e|] w2]
  end; try reflexivity.
  simpl. destruct (p_event props); simpl.
  - destruct (p_onEventUpdated props); simpl; rewrite <- ?app_assoc; reflexivity.
  - destruct (p_onEventCreated props); simpl; rewrite <- ?app_assoc; reflexivity.
Qed.

Lemma In_firstn {A} n (l : list A) x : In x (firstn n l) -> In x l.
Proof.
  revert l. induction n as [|n IH]; intros [|y l]; simpl; try tauto.
  intros [->|H]; auto.
Qed.

(** What the provider call adds to the log comes from the connector, and
    the call leaves the modal's state alone. *)
Lemma providerCall_effects env props p w :
  exists es,
    log (snd (providerCall env props p w)) = (log w ++ es)%list
    /\ Forall (fun e => connectorEffect e = true) es
    /\ keepsPage w (snd (providerCall env props p w)).
Proof.
  unfold providerCall. destruct (truthy _) as [gid|].
  - destruct (client_call_log env
                (emit (EventsUpdate "primary" gid p) ;;; ask (eventsUpdate env))
                [EventsUpdate "primary" gid p] w) as (n & k & L & _).
    { intros w1. exists 1%nat. reflexivity. }
    eexists. split; [exact L|]. split; [|apply kp_updateEvent].
    apply Forall_forall. intros e He.
    apply in_app_or in He. destruct He as [He|He]; apply In_firstn in He; simpl in He;
      repeat destruct He as [<-|He]; try reflexivity; destruct He.
  - destruct (client_call_log env
                (emit (ClientInit (apiKeyCfg env)
                         ["https://www.googleapis.com/discovery/v1/apis/calendar/v3/rest"]) ;;;
                 ask (clientInit env) ;;;
                 emit (EventsInsert "primary" p) ;;;
                 ask (eventsInsert env))
                [ClientInit (apiKeyCfg env)
                   ["https://www.googleapis.com/discovery/v1/apis/calendar/v3/rest"];
                 EventsInsert "primary" p] w) as (n & k & L & _).
    { intros w1. run. destruct (clientInit env _); [|exists 1%nat; reflexivity ..].
      simpl. exists 2%nat. rewrite <- ?app_assoc. reflexivity. }
    eexists. split; [exact L|]. split; [|apply kp_createEvent].
    apply Forall_forall. intros e He.
    apply in_app_or in He. destruct He as [He|He]; apply In_firstn in He; simpl in He;
      repeat destruct He as [<-|He]; try reflexivity; destruct He.
Qed.

Lemma setIsLoading_world b w :
  log (snd (setIsLoading b w)) = log w
  /\ formData (snd (setIsLoading b w)) = formData w.
Proof. split; reflexivity. Qed.

Lemma In_callbackEffects props ev e :
  In e (callbackEffects props ev) ->
  (e = OnEventUpdated ev /\ p_event props <> None)
  \/ (e = OnEventCreated ev /\ p_event props = None).
Proof.
  unfold callbackEffects. destruct (p_event props) as [old|].
  - destruct (p_onEventUpdated props); simpl; [|tauto].
    intros [<-|[]]. left. split; [reflexivity | discriminate].
  - destruct (p_onEventCreated props); simpl; [|tauto].
    intros [<-|[]]. right. split; reflexivity.
Qed.



(** Which write the provider call makes. *)
Lemma providerCall_dispatched env props p w :
  exists es,
    log (snd (providerCall env props p w)) = (log w ++ es)%list
    /\ Forall (fun e => connectorEffect e = true /\ dispatched props e) es.
Proof.
  unfold providerCall. fold (editedProviderId props).
  destruct (editedProviderId props) as [gid|] eqn:Eg.
  - destruct (client_call_log env
                (emit (EventsUpdate "primary" gid p) ;;; ask (eventsUpdate env))
                [EventsUpdate "primary" gid p] w) as (n & k & L & _).
    { intros w1. exists 1%nat. reflexivity. }
    eexists. split; [exact L|].
    apply Forall_forall. intros e He.
    apply in_app_or in He. destruct He as [He|He]; apply In_firstn in He; simpl in He;
      repeat destruct He as [<-|He]; try (split; [reflexivity | exact I]);
      try destruct He.
    split; [reflexivity | exact Eg].
  - destruct (client_call_log env
                (emit (ClientInit (apiKeyCfg env)
                         ["https://www.googleapis.com/discovery/v1/apis/calendar/v3/rest"]) ;;;
                 ask (clientInit env) ;;;
                 emit (EventsInsert "primary" p) ;;;
                 ask (eventsInsert env))
                [ClientInit (apiKeyCfg env)
                   ["https://www.googleapis.com/discovery/v1/apis/calendar/v3/rest"];
                 EventsInsert "primary" p] w) as (n & k & L & _).
    { intros w1. run. destruct (clientInit env _); [|exists 1%nat; reflexivity ..].
      simpl. exists 2%nat. rewrite <- ?app_assoc. reflexivity. }
    eexists. split; [exact L|].
    apply Forall_forall. intros e He.
    apply in_app_or in He. destruct He as [He|He]; apply In_firstn in He; simpl in He;
      repeat destruct He as [<-|He]; try (split; [reflexivity | exact I]);
      try destruct He.
    split; [reflexivity | exact Eg].
Qed.

(** X12.  What a connected submit writes follows the props: with an edited
    event that carries a non-empty provider id it only updates, and only
    that id; otherwise (a new event, or an edited one without provider id)
    it only inserts.  The callback follows the presence of the event
    alone: [onEventUpdated] whenever an event is being edited, also when
    the write was an insert, and [onEventCreated] only when there is
    none. *)
Theorem submit_dispatch env props w :
  isGoogleConnected w = true ->
  exists es,
    log (snd (handleSubmit env props w)) = (log w ++ es)%list
    /\ (forall c p, In (EventsInsert c p) es -> editedProviderId props = None)
    /\ (forall c i p, In (EventsUpdate c i p) es -> editedProviderId props = Some i)
    /\ (forall ev, In (OnEventCreated ev) es -> p_event props = None)
    /\ (forall ev, In (OnEventUpdated ev) es -> p_event props <> None).
Proof.
  intros H.
  assert (D : exists es,
             log (snd (handleSubmit env props w)) = (log w ++ es)%list
             /\ Forall (dispatched props) es).
  { rewrite (handleSubmit_connected env props w H), submitEvent_stages.
    destruct (buildEventData env (formData w)) as [p|e|].
    - destruct (providerCall_dispatched env props p (snd (setIsLoading true w)))
        as (es & L & F).
      destruct (setIsLoading_world true w) as [L0 _]. rewrite L0 in L.
      assert (F' : Forall (dispatched props) es)
        by (eapply Forall_impl; [|exact F]; intros a [_ Ha]; exact Ha).
      destruct (providerCall env props p _) as [[[r|]|e|] w2]; simpl in *.
      + eexists. split; [rewrite L, <- app_assoc; reflexivity|].
        apply Forall_app. split; [exact F'|]. apply Forall_app. split.
        * apply Forall_forall. intros a Ha.
          apply In_callbackEffects in Ha. destruct Ha as [[-> Hp]|[-> Hp]]; exact Hp.
        * repeat constructor.
      + eexists. split; [rewrite L, <- app_assoc; reflexivity|].
        apply Forall_app. split; [exact F' | repeat constructor].
      + eexists. split; [rewrite L, <- app_assoc; reflexivity|].
        apply Forall_app. split; [exact F' | repeat constructor].
      + eexists. split; [exact L | exact F'].
    - eexists. split; [reflexivity | repeat constructor].
    - exists []. split; [simpl; now rewrite app_nil_r | constructor]. }
  destruct D as (es & L & F). exists es. split; [exact L|].
  rewrite Forall_forall in F.
  repeat split; intros; match goal with Hin : In _ es |- _ => apply F in Hin; exact Hin end.
Qed.

Lemma submit_dispatch_witness :
  exists es,
    log (snd (handleSubmit (happyEnv 0) (editProps unsyncedEvent)
                (worldReady true sampleForm)))
    = (log (worldReady true sampleForm) ++ es)%list
    /\ (forall c i p, In (EventsUpdate c i p) es ->
          editedProviderId (editProps unsyncedEvent) = Some i).
Proof.
  destruct (submit_dispatch (happyEnv 0) (editProps unsyncedEvent)
              (worldReady true sampleForm) eq_refl) as (es & L & _ & U & _).
  exists es. split; [exact L | exact U].
Defined.

(** Editing an event that has no provider id: the provider gets an
    insert, the parent is told of an update. *)
Example submit_unsynced_edit :
  exists ev,
    log (snd (handleSubmit (happyEnv 0) (editProps unsyncedEvent)
                (worldReady true sampleForm)))
    = [GapiLoad "client";
       ClientInit (Some "api-key")
         ["https://www.googleapis.com/discovery/v1/apis/calendar/v3/rest"];
       EventsInsert "primary" samplePayload;
       OnEventUpdated ev;
       OnOpenChange false]
    /\ ce_id ev = "event-7" /\ ce_googleEventId ev = Some "g-1".
Proof. eexists. vm_compute. repeat split. Qed.

Lemma In_snoc {A} (l : list A) x e : In x (l ++ [e]) -> x <> e -> In x l.
Proof. intros H N. apply in_app_or in H. destruct H as [H|[H|[]]]; congruence. Qed.

(** X13.  The record a connected submit hands to the parent, whichever
    callback it is, is built from the form as it was when the handler
    started: title, description, attendees and reminders of the form,
    start and end as recomposed from its date and time fields (both valid
    instants), the lead's id, and the fixed creator.  An edited event
    keeps its own non-empty id; a new one gets "event-" followed by the
    clock reading. *)
Theorem submit_record env props w rec :
  isGoogleConnected w = true ->
  In (OnEventCreated rec) (log (snd (handleSubmit env props w)))
  \/ In (OnEventUpdated rec) (log (snd (handleSubmit env props w))) ->
  (forall ev, ~ In (OnEventCreated ev) (log w)) ->
  (forall ev, ~ In (OnEventUpdated ev) (log w)) ->
  ce_title rec = fd_title (formData w)
  /\ ce_description rec = Some (fd_description (formData w))
  /\ ce_attendees rec = Some (fd_attendees (formData w))
  /\ ce_reminders rec = Some (fd_reminders (formData w))
  /\ (ce_startDateTime rec, ce_endDateTime rec) = recompose env (formData w)
  /\ ce_startDateTime rec <> None /\ ce_endDateTime rec <> None
  /\ ce_leadId rec = option_map lead_id (p_lead props)
  /\ ce_createdBy rec = "current-user"
  /\ (forall old, p_event props = Some old -> ce_id old <> "" -> ce_id rec = ce_id old)
  /\ (p_event props = None ->
      exists l, ce_id rec = "event-" ++ showZ (now env l 0)
                /\ ce_createdAt rec = now env l 1).
Proof.
  intros H Hin Hc Hu.
  assert (Hin' : exists cb, In cb (log (snd (handleSubmit env props w)))
                            /\ (cb = OnEventCreated rec \/ cb = OnEventUpdated rec))
    by (destruct Hin; eauto).
  clear Hin. destruct Hin' as (cb & Hin & Hcb).
  assert (Hw : ~ In cb (log w))
    by (destruct Hcb as [->| ->]; [apply Hc | apply Hu]).
  rewrite (handleSubmit_connected env props w H), submitEvent_stages in Hin.
  destruct (buildEventData env (formData w)) as [p|e|] eqn:B.
  - destruct (providerCall_effects env props p (snd (setIsLoading true w)))
      as (es & L & F & _).
    destruct (setIsLoading_world true w) as [L0 _]. rewrite L0 in L.
    rewrite Forall_forall in F.
    assert (Hes : ~ In cb (log w ++ es)).
    { intros Hx. apply in_app_or in Hx. destruct Hx as [Hx|Hx]; [tauto|].
      apply F in Hx. destruct Hcb as [->| ->]; discriminate. }
    destruct (providerCall env props p _) as [[[r|]|e|] w2]; simpl in Hin, L;
      rewrite L in Hin.
    + assert (R : rec = localRecord env props (formData w) r (log w ++ es)).
      { rewrite app_assoc in Hin. apply In_snoc in Hin;
          [|destruct Hcb as [->| ->]; discriminate].
        apply in_app_or in Hin. destruct Hin as [Hx|Hx]; [tauto|].
        apply In_callbackEffects in Hx.
        destruct Hx as [[-> _]|[-> _]]; destruct Hcb as [E|E]; congruence. }
      subst rec. unfold localRecord.
      cbn [ce_id ce_title ce_description ce_startDateTime ce_endDateTime ce_attendees
           ce_reminders ce_leadId ce_createdBy ce_createdAt].
      unfold buildEventData in B.
      destruct (recompose env (formData w)) as [s e'] eqn:Rc. cbn [fst snd].
      destruct s as [s|]; [|discriminate]. destruct e' as [e'|]; [|discriminate].
      repeat split; try discriminate.
      * intros old -> Hid. simpl. apply String.eqb_neq in Hid. now rewrite Hid.
      * intros ->. simpl. eexists. split; reflexivity.
    + exfalso. apply Hes. eapply In_snoc; [exact Hin|].
      destruct Hcb as [->| ->]; discriminate.
    + exfalso. apply Hes. eapply In_snoc; [exact Hin|].
      destruct Hcb as [->| ->]; discriminate.
    + tauto.
  - exfalso. simpl in Hin. apply Hw. eapply In_snoc; [exact Hin|].
    destruct Hcb as [->| ->]; discriminate.
  - exfalso. simpl in Hin. tauto.
Qed.

Lemma submit_record_witness :
  ce_attendees sampleRecord = Some ["a@x.com"].
Proof.
  apply (submit_record (happyEnv 0) newEventProps (worldReady true sampleForm)
           sampleRecord eq_refl).
  - left. vm_compute. auto.
  - intros ev [].
  - intros ev [].
Defined.

(** X14.  When the date and time fields do not make a valid instant (an
    empty date field, for one), a connected submit calls nothing on the
    connector, not even its initialization: it logs the RangeError to the
    console, lowers the loading flag and leaves the form as it was. *)
Theorem submit_invalid_date env props w :
  isGoogleConnected w = true ->
  fst (recompose env (formData w)) = None \/ snd (recompose env (formData w)) = None ->
  handleSubmit env props w
  = (Ok tt,
     finished w (formData w)
       [ConsoleError "Failed to create/update event:" "RangeError: Invalid time value"]).
Proof.
  intros H D. rewrite (handleSubmit_connected env props w H), submitEvent_stages.
  unfold buildEventData. destruct (recompose env (formData w)) as [s e]. simpl in D.
  destruct D as [->| ->]; [reflexivity|].
  destruct (JsDate.toISOString s); reflexivity.
Qed.

Lemma submit_invalid_date_witness :
  log (snd (handleSubmit deniedEnv newEventProps (worldReady true emptyForm)))
  = [ConsoleError "Failed to create/update event:" "RangeError: Invalid time value"].
Proof.
  rewrite (submit_invalid_date deniedEnv newEventProps (worldReady true emptyForm)
             eq_refl (or_introl eq_refl)).
  reflexivity.
Defined.

(** ** Connecting *)

Lemma signIn_no_reject env w e : fst (signIn env w) <> Fail e.
Proof.
  pose proof (signIn_stages env w) as S.
  destruct (initializeGoogleAPI env w) as [[[]|e0|] w1];
    [|rewrite S; discriminate ..].
  destruct (getAuthInstance env _) as [[]|e1|]; [|rewrite S; discriminate ..].
  destruct (authSignIn env _); rewrite S; discriminate.
Qed.

(** X15.  The connect handler never rejects.  When sign-in resolves, the
    loading flag is lowered and the connected flag becomes the sign-in's
    answer, so a failed sign-in lowers a connected flag that was up; when
    sign-in never settles, the loading flag stays up and the connected
    flag is not written.  The form fields are never touched. *)
Theorem handleGoogleConnect_outcome env w :
  (forall b w1, signIn env (loading w) = (Ok b, w1) ->
      handleGoogleConnect env w = (Ok tt, connectedAs b w1))
  /\ (forall w1, signIn env (loading w) = (Pending, w1) ->
      handleGoogleConnect env w = (Pending, w1)
      /\ isLoading w1 = true /\ isGoogleConnected w1 = isGoogleConnected w)
  /\ (forall e, fst (handleGoogleConnect env w) <> Fail e)
  /\ formData (snd (handleGoogleConnect env w)) = formData w.
Proof.
  assert (S : handleGoogleConnect env w
              = match signIn env (loading w) with
                | (Ok b, w1) => (Ok tt, connectedAs b w1)
                | (Fail e, w1) =>
                    (Ok tt, connectedAs (isGoogleConnected w1)
                              (logged w1 [ConsoleError
                                            "Failed to connect to Google Calendar:" e]))
                | (Pending, w1) => (Pending, w1)
                end).
  { unfold handleGoogleConnect, tryFinally, consoleError, connectedAs, logged, loading.
    run. destruct (signIn env _) as [[b|e|] w1]; reflexivity. }
  destruct (kp_signIn env (loading w)) as [(KF & KL & KC & _) _].
  pose proof (signIn_no_reject env (loading w)) as N.
  rewrite S. destruct (signIn env (loading w)) as [[b|e|] w1]; simpl in *.
  - repeat split; try discriminate; try congruence;
      try (intros b' w1' [= <- <-]; reflexivity).
  - exfalso. eapply N. reflexivity.
  - repeat split; try discriminate; try congruence;
      try (intros w1' [= <-]; auto).
Qed.

Lemma handleGoogleConnect_outcome_witness :
  isGoogleConnected (snd (handleGoogleConnect deniedEnv (worldReady true sampleForm)))
  = false.
Proof.
  rewrite (proj1 (handleGoogleConnect_outcome deniedEnv (worldReady true sampleForm))
             false (snd (signIn deniedEnv (loading (worldReady true sampleForm))))
             eq_refl).
  reflexivity.
Defined.

(** X16.  The connection check on mount never rejects and never touches
    the form fields or the loading flag.  When initialization rejects, the
    connected flag is left as it was and the error goes to the console;
    when initialization resolves and the session query answers, the
    connected flag becomes that answer. *)
Theorem checkGoogleConnection_outcome env w :
  (forall e, fst (checkGoogleConnection env w) <> Fail e)
  /\ formData (snd (checkGoogleConnection env w)) = formData w
  /\ isLoading (snd (checkGoogleConnection env w)) = isLoading w
  /\ (forall e w1, initializeGoogleAPI env w = (Fail e, w1) ->
        checkGoogleConnection env w
        = (Ok tt, logged w1 [ConsoleError "Failed to check Google connection:" e])
        /\ isGoogleConnected w1 = isGoogleConnected w)
  /\ (forall w1 b w2, initializeGoogleAPI env w = (Ok tt, w1) ->
        isSignedIn env w1 = (Ok b, w2) ->
        isGoogleConnected (snd (checkGoogleConnection env w)) = b).
Proof.
  assert (S : checkGoogleConnection env w
              = match initializeGoogleAPI env w with
                | (Ok _, w1) =>
                    match isSignedIn env w1 with
                    | (Ok b, w2) => setIsGoogleConnected b w2
                    | (Fail e, w2) =>
                        (Ok tt,
                         logged w2 [ConsoleError "Failed to check Google connection:" e])
                    | (Pending, w2) => (Pending, w2)
                    end
                | (Fail e, w1) =>
                    (Ok tt, logged w1 [ConsoleError "Failed to check Google connection:" e])
                | (Pending, w1) => (Pending, w1)
                end).
  { unfold checkGoogleConnection, consoleError, logged. run.
    destruct (initializeGoogleAPI env w) as [[[]|e|] w1]; try reflexivity.
    destruct (isSignedIn env w1) as [[b|e|] w2]; reflexivity. }
  destruct (kp_initialize env w) as [(F1 & L1 & C1 & _) _].
  rewrite S. destruct (initializeGoogleAPI env w) as [[[]|e|] w1]; simpl in *.
  - destruct (kp_isSignedIn env w1) as [(F2 & L2 & C2 & _) _].
    destruct (isSignedIn env w1) as [[b|e|] w2] eqn:E2; simpl in *;
      repeat split; try discriminate; try congruence;
      try (intros w1' b' w2' [= <-] E; congruence).
  - repeat split; try discriminate; try congruence;
      try (intros e' w1' [= <- <-]; congruence).
  - repeat split; try discriminate; try congruence.
Qed.

Lemma checkGoogleConnection_outcome_witness :
  isGoogleConnected (snd (checkGoogleConnection (happyEnv 0) world0)) = true.
Proof.
  apply (proj2 (proj2 (proj2 (proj2 (checkGoogleConnection_outcome (happyEnv 0) world0))))
           (snd (initializeGoogleAPI (happyEnv 0) world0)) true
           (snd (isSignedIn (happyEnv 0) (snd (initializeGoogleAPI (happyEnv 0) world0)))));
    reflexivity.
Defined.

(** ** The round trip through the form fields, in general *)

Ltac split_tests :=
  repeat match goal with
    | |- context [Z.ltb ?a ?b] => destruct (Z.ltb_spec0 a b)
    | |- context [Z.leb ?a ?b] => destruct (Z.leb_spec0 a b)
    | |- context [Z.eqb ?a ?b] => destruct (Z.eqb_spec a b)
    end.

(** The two calendar conversions are inverse to each other on days. *)
Lemma days_from_civil_from_days z :
  match JsDate.civil_from_days z with
  | (y, m, d) => JsDate.days_from_civil y m d = z
  end.
Proof.
  unfold JsDate.civil_from_days, JsDate.days_from_civil. cbv zeta.
  split_tests; Z.to_euclidean_division_equations; lia.
Qed.

(** A day number converts to a date that exists. *)
Lemma civil_from_days_valid z :
  match JsDate.civil_from_days z with
  | (y, m, d) => 1 <= m <= 12 /\ 1 <= d <= JsDate.daysInMonth y m
  end.
Proof.
  unfold JsDate.civil_from_days, JsDate.daysInMonth, JsDate.isLeap. cbv zeta.
  split_tests; cbn [andb orb negb]; Z.to_euclidean_division_equations; lia.
Qed.

Lemma civil_from_days_year z :
  -719528 <= z <= 2932896 ->
  match JsDate.civil_from_days z with
  | (y, m, d) => 0 <= y <= 9999
  end.
Proof.
  intros H. unfold JsDate.civil_from_days. cbv zeta.
  split_tests; Z.to_euclidean_division_equations; lia.
Qed.

Lemma digit_cases a :
  exists k, (0 <= k < 10)%nat
            /\ JsDate.digit a = ascii_of_nat (48 + k) /\ a mod 10 = Z.of_nat k.
Proof.
  exists (Z.to_nat (a mod 10)).
  pose proof (Z.mod_pos_bound a 10 ltac:(lia)).
  repeat split; try lia.
Qed.

Ltac ten_cases k :=
  do 10 (destruct k as [|k]; [reflexivity|]); exfalso; lia.

Lemma digitVal_digit a : JsDate.digitVal (JsDate.digit a) = Some (a mod 10).
Proof.
  destruct (digit_cases a) as (k & Hk & E1 & E2). rewrite E1, E2. clear E1 E2.
  ten_cases k.
Qed.

Lemma digit_not_T a : Ascii.eqb (JsDate.digit a) "T" = false.
Proof.
  destruct (digit_cases a) as (k & Hk & E1 & _). rewrite E1. clear E1.
  ten_cases k.
Qed.

Lemma digits_pad2 n acc rest :
  0 <= n <= 99 ->
  JsDate.digits 2 acc (JsDate.pad2 n ++ rest) = Some (100 * acc + n, rest).
Proof.
  intros H. unfold JsDate.pad2. cbn [append JsDate.digits].
  rewrite !digitVal_digit. f_equal. f_equal.
  Z.to_euclidean_division_equations; lia.
Qed.

Lemma digits_pad4 y rest :
  0 <= y <= 9999 ->
  JsDate.digits 4 0 (JsDate.pad4 y ++ rest) = Some (y, rest).
Proof.
  intros H. unfold JsDate.pad4, JsDate.pad3, JsDate.pad2. cbn [append JsDate.digits].
  rewrite !digitVal_digit. f_equal. f_equal.
  Z.to_euclidean_division_equations; lia.
Qed.

Lemma append_assoc (a b c : string) : (a ++ b) ++ c = a ++ b ++ c.
Proof. induction a as [|x a IH]; simpl; [reflexivity | now rewrite IH]. Qed.

(** Parsing a printed date and time of day gives the fields back. *)
Lemma parse_printed y m d k :
  0 <= y <= 9999 -> 1 <= m <= 12 -> 1 <= d <= JsDate.daysInMonth y m ->
  0 <= k < 1440 ->
  JsDate.parseLocalDateTime
    ((JsDate.pad4 y ++ "-" ++ JsDate.pad2 m ++ "-" ++ JsDate.pad2 d) ++ "T" ++ hhmm k)
  = Some (y, m, d, k / 60, k mod 60).
Proof.
  intros Hy Hm Hd Hk.
  assert (Hd' : d <= 31).
  { unfold JsDate.daysInMonth in Hd.
    destruct (m =? 2); [destruct (JsDate.isLeap y)|destruct (_ || _)]; lia. }
  unfold JsDate.parseLocalDateTime, hhmm.
  rewrite !append_assoc.
  rewrite digits_pad4 by lia. cbn [append JsDate.expect]. cbn [Ascii.eqb Bool.eqb].
  rewrite digits_pad2 by lia. cbn [append JsDate.expect]. cbn [Ascii.eqb Bool.eqb].
  rewrite digits_pad2 by lia. cbn [append JsDate.expect]. cbn [Ascii.eqb Bool.eqb].
  rewrite digits_pad2 by (Z.to_euclidean_division_equations; lia).
  cbn [append JsDate.expect]. cbn [Ascii.eqb Bool.eqb].
  replace (JsDate.pad2 (k mod 60)) with (JsDate.pad2 (k mod 60) ++ "")
    by (unfold JsDate.pad2; reflexivity).
  rewrite digits_pad2 by (Z.to_euclidean_division_equations; lia).
  replace (100 * 0 + m) with m by lia. replace (100 * 0 + d) with d by lia.
  replace (100 * 0 + k / 60) with (k / 60) by lia.
  replace (100 * 0 + k mod 60) with (k mod 60) by lia.
  replace ((1 <=? m) && (m <=? 12) && (1 <=? d) && (d <=? JsDate.daysInMonth y m)
           && (k / 60 <=? 23) && (k mod 60 <=? 59)) with true; [reflexivity|].
  symmetry. rewrite !andb_true_iff, !Z.leb_le.
  repeat split; try lia; Z.to_euclidean_division_equations; lia.
Qed.

(** The date field of an instant with a four-digit year. *)
Lemma beforeT_isoString ms :
  fourDigitYear ms ->
  match JsDate.civil_from_days (ms / 86400000) with
  | (y, m, d) =>
      JsDate.beforeT (JsDate.isoString ms)
      = JsDate.pad4 y ++ "-" ++ JsDate.pad2 m ++ "-" ++ JsDate.pad2 d
  end.
Proof.
  intros H. unfold fourDigitYear in H.
  pose proof (civil_from_days_year (ms / 86400000)
                ltac:(Z.to_euclidean_division_equations; lia)) as Hy.
  unfold JsDate.isoString, JsDate.isoDate, JsDate.msPerDay.
  destruct (JsDate.civil_from_days (ms / 86400000)) as [[y m] d].
  unfold JsDate.isoYear.
  replace ((0 <=? y) && (y <=? 9999)) with true
    by (symmetry; rewrite andb_true_iff, !Z.leb_le; lia).
  unfold JsDate.pad4, JsDate.pad3, JsDate.pad2.
  cbn [append JsDate.beforeT]. rewrite !digit_not_T.
  cbn [Ascii.eqb Bool.eqb]. reflexivity.
Qed.

Lemma localMinute_range off ms : 0 <= localMinute off ms < 1440.
Proof. unfold localMinute. Z.to_euclidean_division_equations; lia. Qed.

(** In closed form: for an event whose start has a four-digit year, in
    a zone at a fixed offset, the instants recomposed from the form fields
    are: the UTC day of the START, plus the local minute of the day of the
    instant (seconds and milliseconds dropped), read as local time. *)
Lemma roundTrip_closed_form env off ev s e :
  fixedZone env off ->
  ce_startDateTime ev = Some s -> ce_endDateTime ev = Some e ->
  fourDigitYear s ->
  roundTrip env ev
  = Some (Some (s / 86400000 * 86400000 + (localMinute off s - off) * 60000),
          Some (s / 86400000 * 86400000 + (localMinute off e - off) * 60000)).
Proof.
  intros Hz Hs He Hy.
  pose proof (beforeT_isoString s Hy) as Hd.
  pose proof (days_from_civil_from_days (s / 86400000)) as Hi.
  pose proof (civil_from_days_valid (s / 86400000)) as Hv.
  pose proof (civil_from_days_year (s / 86400000)
                ltac:(unfold fourDigitYear in Hy;
                      Z.to_euclidean_division_equations; lia)) as Hr.
  destruct (JsDate.civil_from_days (s / 86400000)) as [[y m] d].
  destruct Hv as [Hm Hdd].
  unfold roundTrip, decompose, dateOfDay. rewrite Hs, He.
  cbn [JsDate.toISOString]. rewrite Hd.
  unfold recompose. cbn [fd_date fd_startTime fd_endTime].
  rewrite !(timeOfDay_fixed env off) by assumption.
  fold (localMinute off s). fold (localMinute off e).
  pose proof (localMinute_range off s) as Ks.
  pose proof (localMinute_range off e) as Ke.
  unfold newDate, JsDate.parse.
  rewrite !parse_printed by assumption.
  rewrite !Hz, Hi. unfold JsDate.msPerDay, JsDate.msPerMinute.
  generalize dependent (localMinute off s). generalize dependent (localMinute off e).
  intros ke Hke ks Hks.
  pose proof (Z.div_mod ks 60 ltac:(lia)). pose proof (Z.div_mod ke 60 ltac:(lia)).
  assert (E1 : s / 86400000 * 86400000 + ks / 60 * 3600000 + ks mod 60 * 60000
                 - off * 60000
               = s / 86400000 * 86400000 + (ks - off) * 60000) by lia.
  assert (E2 : s / 86400000 * 86400000 + ke / 60 * 3600000 + ke mod 60 * 60000
                 - off * 60000
               = s / 86400000 * 86400000 + (ke - off) * 60000) by lia.
  rewrite E1, E2. reflexivity.
Qed.

(** X17.  For every event whose start has a four-digit year, in a zone at
    a fixed offset, opening the form on the event and submitting it
    untouched recomposes two valid instants.  The start comes back
    unchanged exactly when it is on a whole minute and its local calendar
    day is its UTC calendar day; the end comes back unchanged exactly when
    it is on a whole minute and its local calendar day is the UTC calendar
    day of the start (the form has one date field, taken from the
    start). *)
Theorem roundTrip_survives env off ev s e :
  fixedZone env off ->
  ce_startDateTime ev = Some s -> ce_endDateTime ev = Some e ->
  fourDigitYear s ->
  exists s' e',
    roundTrip env ev = Some (Some s', Some e')
    /\ (s' = s <-> s mod 60000 = 0 /\ sameDay off s s)
    /\ (e' = e <-> e mod 60000 = 0 /\ sameDay off e s).
Proof.
  intros Hz Hs He Hy.
  rewrite (roundTrip_closed_form env off ev s e Hz Hs He Hy).
  eexists. eexists. split; [reflexivity|].
  unfold localMinute, sameDay.
  split; Z.to_euclidean_division_equations; lia.
Qed.

Lemma roundTrip_survives_witness :
  exists s' e',
    roundTrip (happyEnv 3600000) juneEvent = Some (Some s', Some e')
    /\ (s' = 1717232400000
        <-> 1717232400000 mod 60000 = 0 /\ sameDay 60 1717232400000 1717232400000).
Proof.
  destruct (roundTrip_survives (happyEnv 3600000) 60 juneEvent
              1717232400000 1717236000000
              (fun _ _ => eq_refl) eq_refl eq_refl)
    as (s' & e' & R & S & _).
  - unfold fourDigitYear. lia.
  - exists s', e'. split; [exact R | exact S].
Defined.

(** ** Opening the modal *)

(** X18.  The effect hook that fills the form.  An event takes precedence
    over a lead.  With an event whose start is an Invalid Date the hook
    throws and the form keeps what it showed before; otherwise every field
    is replaced: the location is cleared, missing attendees become the
    empty list and missing reminders [10], the start time is a five
    character HH:MM string, and an Invalid Date as end shows as "Inval".
    With a lead alone, the title is the follow-up suggestion and the
    attendee list is replaced by the lead's address, the other fields
    staying as they were; with neither, nothing changes. *)
Theorem populate_outcome env props w :
  (forall ev, p_event props = Some ev -> ce_startDateTime ev = None ->
     populate env props w = (Fail "RangeError: Invalid time value", w))
  /\ (forall ev s, p_event props = Some ev -> ce_startDateTime ev = Some s ->
        let fd := formData (snd (populate env props w)) in
        fst (populate env props w) = Ok tt
        /\ fd_title fd = ce_title ev
        /\ fd_location fd = ""
        /\ (ce_attendees ev = None -> fd_attendees fd = [])
        /\ (ce_reminders ev = None -> fd_reminders fd = [10])
        /\ String.length (fd_startTime fd) = 5%nat
        /\ (ce_endDateTime ev = None -> fd_endTime fd = "Inval"))
  /\ (forall lead, p_event props = None -> p_lead props = Some lead ->
        let fd := formData (snd (populate env props w)) in
        fd_title fd = "Follow-up with " ++ lead_name lead
        /\ fd_attendees fd = [lead_primaryEmail lead]
        /\ (fd_description fd, fd_date fd, fd_startTime fd, fd_endTime fd,
            fd_location fd, fd_reminders fd)
           = (fd_description (formData w), fd_date (formData w),
              fd_startTime (formData w), fd_endTime (formData w),
              fd_location (formData w), fd_reminders (formData w)))
  /\ (p_event props = None -> p_lead props = None ->
        populate env props w = (Ok tt, w)).
Proof.
  unfold populate. split; [|split; [|split]].
  - intros ev -> Hs. unfold decompose, dateOfDay. rewrite Hs. reflexivity.
  - intros ev s -> Hs. unfold decompose, dateOfDay. rewrite Hs.
    cbn [JsDate.toISOString]. run.
    split; [reflexivity|]. split; [reflexivity|]. split; [reflexivity|].
    split; [intros E; rewrite E; reflexivity|].
    split; [intros E; rewrite E; reflexivity|].
    split.
    + unfold timeOfDay, JsDate.toTimeString, JsDate.clock, JsDate.pad2.
      cbn [append String.substring String.length]. reflexivity.
    + intros E. rewrite E. reflexivity.
  - intros lead -> ->. repeat split.
  - intros -> ->. reflexivity.
Qed.

Lemma populate_outcome_witness :
  populate (happyEnv 0) (editProps brokenEvent) (worldReady true sampleForm)
  = (Fail "RangeError: Invalid time value", worldReady true sampleForm).
Proof.
  apply (proj1 (populate_outcome (happyEnv 0) (editProps brokenEvent)
                  (worldReady true sampleForm)) brokenEvent); reflexivity.
Defined.

(* ===================================================================== *)
(** * Further properties of the lead list                                *)
(* ===================================================================== *)

Section SortOrder.
Context {A : Type}.
Variable cmp : A -> A -> option Z.
(** The elements the comparator is consistent on. *)
Variable D : A -> Prop.
Hypothesis asym :
  forall x y, D x -> D y -> goesAfter cmp x y = true -> goesAfter cmp y x = false.
Hypothesis trans :
  forall x y z, D x -> D y -> D z ->
                before cmp x y -> before cmp y z -> before cmp x z.

Lemma insert_Forall (P : A -> Prop) x l : P x -> Forall P l -> Forall P (insert cmp x l).
Proof.
  intros Hx Hl. eapply Permutation_Forall; [symmetry; apply insert_perm|].
  now constructor.
Qed.

Lemma insert_sorted x l :
  D x -> Forall D l ->
  StronglySorted (before cmp) l -> StronglySorted (before cmp) (insert cmp x l).
Proof.
  intros Dx Dl S. induction S as [|y l S IH Hy]; simpl.
  - repeat constructor.
  - inversion Dl as [|? ? Dy Dl']; subst.
    destruct (goesAfter cmp x y) eqn:G.
    + constructor; [now apply IH|].
      apply insert_Forall; [now apply asym | exact Hy].
    + constructor; [now constructor|].
      constructor; [exact G|].
      rewrite Forall_forall in *. intros z Hz.
      apply (trans x y z); auto.
Qed.

Lemma sort_sorted l : Forall D l -> StronglySorted (before cmp) (sort cmp l).
Proof.
  induction l as [|x l IH]; simpl; intros Dl; [constructor|].
  inversion Dl; subst. apply insert_sorted; auto.
  eapply Permutation_Forall; [symmetry; apply sort_perm | assumption].
Qed.

End SortOrder.

Lemma StronglySorted_weaken {A} (R R' : A -> A -> Prop) l :
  (forall a b, R a b -> R' a b) -> StronglySorted R l -> StronglySorted R' l.
Proof.
  intros H S. induction S; constructor; auto.
  eapply Forall_impl; [|eassumption]. auto.
Qed.

(** A stable sort keeps the order inside every class of elements that the
    comparator does not separate. *)
Section SortStable.
Context {A : Type}.
Variable cmp : A -> A -> option Z.
Variable p : A -> bool.
Hypothesis together :
  forall x y, p x = true -> p y = true -> goesAfter cmp x y = false.



End SortStable.

Lemma score_cases (s : LeadScore) : 1 <= scoreOrder s <= 3.
Proof. destruct s; simpl; lia. Qed.

Section LeadListMore.

Variable toLowerCase : string -> string.
Variable localeCompare : string -> string -> Z.
Variable User : Type.
Variable filterLeadsForUser : list Lead -> option User -> list Lead.

(** X19.  With "High Priority First" the displayed leads are in order of
    non-increasing score and with "Low Priority First" of non-decreasing
    score, for any filters.  When every permission-filtered lead has a
    valid creation date, "Newest First" displays them from the latest
    creation to the earliest and "Oldest First" the other way round. *)
Theorem displayed_sorted leads user filters :
  StronglySorted scoreNotBelow
    (filteredAndSortedLeads toLowerCase localeCompare User filterLeadsForUser
       leads user filters score_high)
  /\ StronglySorted scoreNotAbove
       (filteredAndSortedLeads toLowerCase localeCompare User filterLeadsForUser
          leads user filters score_low)
  /\ (Forall validCreatedAt (userFilteredLeads User filterLeadsForUser leads user) ->
      StronglySorted notOlder
        (filteredAndSortedLeads toLowerCase localeCompare User filterLeadsForUser
           leads user filters created_desc)
      /\ StronglySorted notNewer
           (filteredAndSortedLeads toLowerCase localeCompare User filterLeadsForUser
              leads user filters created_asc)).
Proof.
  unfold filteredAndSortedLeads. split; [|split].
  - eapply StronglySorted_weaken;
      [|apply (sort_sorted (compareLeads localeCompare score_high) (fun _ => True))].
    + unfold before, goesAfter, scoreNotBelow. simpl. intros a b H.
      apply Z.ltb_ge in H. lia.
    + unfold goesAfter. simpl. intros x y _ _ H. apply Z.ltb_lt in H.
      apply Z.ltb_ge. lia.
    + unfold before, goesAfter. simpl. intros x y z _ _ _ H1 H2.
      apply Z.ltb_ge in H1, H2. apply Z.ltb_ge. lia.
    + apply Forall_forall. trivial.
  - eapply StronglySorted_weaken;
      [|apply (sort_sorted (compareLeads localeCompare score_low) (fun _ => True))].
    + unfold before, goesAfter, scoreNotAbove. simpl. intros a b H.
      apply Z.ltb_ge in H. lia.
    + unfold goesAfter. simpl. intros x y _ _ H. apply Z.ltb_lt in H.
      apply Z.ltb_ge. lia.
    + unfold before, goesAfter. simpl. intros x y z _ _ _ H1 H2.
      apply Z.ltb_ge in H1, H2. apply Z.ltb_ge. lia.
    + apply Forall_forall. trivial.
  - intros V.
    assert (V' : Forall validCreatedAt
                   (filter (matchesFilters toLowerCase filters)
                      (userFilteredLeads User filterLeadsForUser leads user))).
    { rewrite Forall_forall in *. intros l Hl. apply filter_In in Hl. apply V, Hl. }
    split.
    + eapply StronglySorted_weaken;
        [|apply (sort_sorted (compareLeads localeCompare created_desc) validCreatedAt);
          [| |exact V']].
      * unfold before, goesAfter, notOlder. simpl. intros a b H.
        destruct (l_createdAt a), (l_createdAt b); simpl in *; trivial.
        apply Z.ltb_ge in H. lia.
      * unfold goesAfter, validCreatedAt. simpl. intros x y Hx Hy.
        destruct (l_createdAt x), (l_createdAt y); simpl; try congruence.
        intros H. apply Z.ltb_lt in H. apply Z.ltb_ge. lia.
      * unfold before, goesAfter, validCreatedAt. simpl. intros x y z Hx Hy Hz.
        destruct (l_createdAt x), (l_createdAt y), (l_createdAt z); simpl;
          try congruence.
        intros H1 H2. apply Z.ltb_ge in H1, H2. apply Z.ltb_ge. lia.
    + eapply StronglySorted_weaken;
        [|apply (sort_sorted (compareLeads localeCompare created_asc) validCreatedAt);
          [| |exact V']].
      * unfold before, goesAfter, notNewer. simpl. intros a b H.
        destruct (l_createdAt a), (l_createdAt b); simpl in *; trivial.
        apply Z.ltb_ge in H. lia.
      * unfold goesAfter, validCreatedAt. simpl. intros x y Hx Hy.
        destruct (l_createdAt x), (l_createdAt y); simpl; try congruence.
        intros H. apply Z.ltb_lt in H. apply Z.ltb_ge. lia.
      * unfold before, goesAfter, validCreatedAt. simpl. intros x y z Hx Hy Hz.
        destruct (l_createdAt x), (l_createdAt y), (l_createdAt z); simpl;
          try congruence.
        intros H1 H2. apply Z.ltb_ge in H1, H2. apply Z.ltb_ge. lia.
Qed.

End LeadListMore.

Section LeadListNames.

Variable toLowerCase : string -> string.
Variable localeCompare : string -> string -> Z.
Variable User : Type.
Variable filterLeadsForUser : list Lead -> option User -> list Lead.

(** X20.  When the runtime's [localeCompare] is a consistent order on
    names (a positive answer one way is non-positive the other way, and
    non-positive answers chain), "Name A-Z" displays the leads so that no
    lead's name compares after a later one's, and "Name Z-A" the other way
    round. *)
Theorem displayed_sorted_by_name leads user filters :
  (forall a b, 0 < localeCompare a b -> localeCompare b a <= 0) ->
  (forall a b c, localeCompare a b <= 0 -> localeCompare b c <= 0 ->
                 localeCompare a c <= 0) ->
  StronglySorted (fun a b => localeCompare (l_name a) (l_name b) <= 0)
    (filteredAndSortedLeads toLowerCase localeCompare User filterLeadsForUser
       leads user filters name_asc)
  /\ StronglySorted (fun a b => localeCompare (l_name b) (l_name a) <= 0)
       (filteredAndSortedLeads toLowerCase localeCompare User filterLeadsForUser
          leads user filters name_desc).
Proof.
  intros Hasym Htrans. unfold filteredAndSortedLeads. split.
  - eapply StronglySorted_weaken;
      [|apply (sort_sorted (compareLeads localeCompare name_asc) (fun _ => True))].
    + unfold before, goesAfter. simpl. intros a b H. apply Z.ltb_ge in H. exact H.
    + unfold goesAfter. simpl. intros x y _ _ H. apply Z.ltb_lt in H.
      apply Z.ltb_ge. now apply Hasym.
    + unfold before, goesAfter. simpl. intros x y z _ _ _ H1 H2.
      apply Z.ltb_ge in H1, H2. apply Z.ltb_ge. eapply Htrans; eassumption.
    + apply Forall_forall. trivial.
  - eapply StronglySorted_weaken;
      [|apply (sort_sorted (compareLeads localeCompare name_desc) (fun _ => True))].
    + unfold before, goesAfter. simpl. intros a b H. apply Z.ltb_ge in H. exact H.
    + unfold goesAfter. simpl. intros x y _ _ H. apply Z.ltb_lt in H.
      apply Z.ltb_ge. now apply Hasym.
    + unfold before, goesAfter. simpl. intros x y z _ _ _ H1 H2.
      apply Z.ltb_ge in H1, H2. apply Z.ltb_ge. eapply Htrans; eassumption.
    + apply Forall_forall. trivial.
Qed.




(** X22.  The sort option decides the order only: under any two options
    the displayed lists hold the same leads, each as many times. *)
Theorem displayed_same_leads leads user filters sortBy sortBy' :
  Permutation
    (filteredAndSortedLeads toLowerCase localeCompare User filterLeadsForUser
       leads user filters sortBy)
    (filteredAndSortedLeads toLowerCase localeCompare User filterLeadsForUser
       leads user filters sortBy').
Proof.
  unfold filteredAndSortedLeads.
  rewrite sort_perm. symmetry. apply sort_perm.
Qed.

Lemma rejects_inactive {A} (eqb : A -> A -> bool) xs x :
  xs = None \/ xs = Some [] -> rejects eqb xs x = false.
Proof. intros [->| ->]; reflexivity. Qed.

Lemma differs_inactive f v : truthy f = None -> differs f v = false.
Proof.
  unfold truthy, differs. destruct f as [s|]; [|reflexivity].
  destruct (String.eqb s ""); [reflexivity | discriminate].
Qed.

(** X23.  Filters that are all inactive (missing, the empty string, or the
    empty list, as a cleared filter panel leaves them) let every lead
    through: the displayed list is then a rearrangement of the whole
    permission-filtered list, and "Showing n of n" has twice the same
    number. *)
Theorem displayed_without_filters leads user filters sortBy :
  inactive filters ->
  (forall lead, matchesFilters toLowerCase filters lead = true)
  /\ Permutation
       (filteredAndSortedLeads toLowerCase localeCompare User filterLeadsForUser
          leads user filters sortBy)
       (userFilteredLeads User filterLeadsForUser leads user)
  /\ List.length
       (filteredAndSortedLeads toLowerCase localeCompare User filterLeadsForUser
          leads user filters sortBy)
     = List.length (userFilteredLeads User filterLeadsForUser leads user).
Proof.
  intros (Hs & Hst & Ha & Hso & Hp & Hb & Hl).
  assert (M : forall lead, matchesFilters toLowerCase filters lead = true).
  { intros lead. unfold matchesFilters. rewrite Hs.
    rewrite !rejects_inactive, !differs_inactive by assumption. reflexivity. }
  assert (P : Permutation
                (filteredAndSortedLeads toLowerCase localeCompare User
                   filterLeadsForUser leads user filters sortBy)
                (userFilteredLeads User filterLeadsForUser leads user)).
  { unfold filteredAndSortedLeads. rewrite sort_perm.
    rewrite forallb_filter_id; [reflexivity|].
    apply forallb_forall. intros; apply M. }
  split; [exact M|]. split; [exact P|]. now apply Permutation_length.
Qed.

End LeadListNames.

Lemma displayed_sorted_by_name_witness :
  StronglySorted (fun a b => (fun _ _ : string => 0) (l_name a) (l_name b) <= 0)
    (filteredAndSortedLeads (fun s => s) (fun _ _ => 0) unit (fun l _ => l)
       threeLeads None noFilters name_asc).
Proof.
  apply (displayed_sorted_by_name (fun s => s) (fun _ _ => 0) unit (fun l _ => l)
           threeLeads None noFilters); intros; lia.
Defined.


Lemma displayed_without_filters_witness :
  List.length
    (filteredAndSortedLeads (fun s => s) (fun _ _ => 0) unit (fun l _ => l)
       threeLeads None clearedFilters score_low)
  = List.length (userFilteredLeads unit (fun l _ => l) threeLeads None).
Proof.
  apply (displayed_without_filters (fun s => s) (fun _ _ => 0) unit (fun l _ => l)
           threeLeads None clearedFilters score_low).
  unfold inactive. simpl. repeat split; auto.
Defined.

Lemma displayed_sorted_witness :
  StronglySorted notOlder
    (filteredAndSortedLeads (fun s => s) (fun _ _ => 0) unit (fun l _ => l)
       threeLeads None noFilters created_desc).
Proof.
  apply (displayed_sorted (fun s => s) (fun _ _ => 0) unit (fun l _ => l)
           threeLeads None noFilters).
  repeat constructor; discriminate.
Defined.

(* ===================================================================== *)
(** * Further properties of the disconnect endpoint                      *)
(* ===================================================================== *)

Lemma prefix_split p s :
  String.prefix p s = true -> s = p ++ substringFrom (String.length p) s.
Proof.
  revert s. induction p as [|a p IH]; intros s H.
  - unfold substringFrom. simpl. now rewrite Nat.sub_0_r, substring_all.
  - destruct s as [|b s]; [discriminate|]. simpl in H.
    destruct (ascii_dec a b) as [->|]; [|discriminate].
    simpl. f_equal. exact (IH s H).
Qed.

Section DisconnectMore.

Variables (Store Claims : Type).
Variable jwtVerify : string -> string -> option Claims.
Variable envSecret : option string.

(** X24.  The endpoint answers 200 or 401, nothing else, and 200 exactly
    when the authorization header is "Bearer " followed by a token that
    [jwt.verify] accepts against the secret in use; that secret is the
    hard-coded "your-secret-key" whenever the environment gives none or
    an empty one. *)
Theorem disconnect_success_iff (request : Request) (db : Store) :
  (status (fst (POST Store Claims jwtVerify envSecret request db)) = 200
   <-> exists token,
         authorization request = Some ("Bearer " ++ token)
         /\ jwtVerify token (JWT_SECRET envSecret) <> None)
  /\ (status (fst (POST Store Claims jwtVerify envSecret request db)) = 200
      \/ status (fst (POST Store Claims jwtVerify envSecret request db)) = 401)
  /\ (envSecret = None \/ envSecret = Some "" ->
      JWT_SECRET envSecret = "your-secret-key").
Proof.
  split; [|split].
  - unfold POST. destruct (authorization request) as [h|].
    + destruct (String.eqb h "") eqn:E0.
      * apply String.eqb_eq in E0. subst h. simpl. split; [discriminate|].
        intros (token & E & _). simpl in E. congruence.
      * destruct (String.prefix "Bearer " h) eqn:Ep; simpl.
        -- pose proof (prefix_split "Bearer " h Ep) as Hh. simpl String.length in Hh.
           destruct (jwtVerify (substringFrom 7 h) (JWT_SECRET envSecret)) eqn:Ev; simpl.
           ++ split; [|reflexivity]. intros _. exists (substringFrom 7 h).
              split; [f_equal; exact Hh | congruence].
           ++ split; [discriminate|]. intros (token & [= E] & Hv).
              assert (Ht : substringFrom 7 h = token)
                by (rewrite E; apply substringFrom_bearer).
              rewrite Ht in Ev. contradiction.
        -- split; [discriminate|]. intros (token & [= E] & _).
           assert (Ht : String.prefix "Bearer " h = true)
             by (rewrite E; apply prefix_bearer).
           congruence.
    + simpl. split; [discriminate|]. intros (token & E & _). discriminate.
  - unfold POST. destruct (authorization request) as [h|]; [|right; reflexivity].
    destruct (_ || _); [right; reflexivity|].
    destruct (jwtVerify _ _); [left | right]; reflexivity.
  - intros [->| ->]; reflexivity.
Qed.

End DisconnectMore.

Lemma disconnect_success_iff_witness :
  status (fst (POST nat unit onlyGoodToken None
                 {| authorization := Some "Bearer good" |} 7%nat)) = 200.
Proof.
  apply (proj1 (disconnect_success_iff nat unit onlyGoodToken None
                  {| authorization := Some "Bearer good" |} 7%nat)).
  exists "good". split; [reflexivity | discriminate].
Defined.

(* ===================================================================== *)
(** * How the operations compose                                         *)
(* ===================================================================== *)

(** X25.  A sign-in that resolved to true leaves the connector
    initialized: from then on [initialize()] is a no-op in every
    environment, so no later call loads the script again, and
    [isSignedIn()] answers from the live session. *)
Theorem signIn_true_initialized env w w1 :
  signIn env w = (Ok true, w1) ->
  isInitialized w1 = true
  /\ (forall env', initializeGoogleAPI env' w1 = (Ok tt, w1))
  /\ (forall env', getAuthInstance env' (log w1 ++ [GetAuthInstance])%list = Ok tt ->
        fst (isSignedIn env' w1)
        = sessionGet env' (log w1 ++ [GetAuthInstance; SessionGet])%list).
Proof.
  intros S.
  assert (I : isInitialized w1 = true).
  { pose proof (signIn_stages env w) as St. rewrite S in St.
    destruct (initializeGoogleAPI env w) as [[[]|e0|] w0] eqn:E0;
      [|discriminate St ..].
    apply initialize_sets_flag in E0.
    destruct (getAuthInstance env _) as [[]|e1|]; [|discriminate St ..].
    destruct (authSignIn env _) as [u|e2|]; [|discriminate St ..].
    inversion St; subst. exact E0. }
  split; [exact I|]. split.
  - intros env'. now apply initialize_when_ready.
  - intros env' G. unfold isSignedIn. run. rewrite I. simpl. rewrite G.
    rewrite <- ?app_assoc. simpl. destruct (sessionGet env' _); reflexivity.
Qed.

Lemma signIn_true_initialized_witness :
  isInitialized (snd (signIn (happyEnv 0) world0)) = true.
Proof.
  apply (signIn_true_initialized (happyEnv 0) world0 (snd (signIn (happyEnv 0) world0))).
  reflexivity.
Defined.

(** X26.  The two-click flow.  A submit while not connected whose sign-in
    resolves to true raises the connected flag, lowers the loading flag
    and keeps the form fields; the next submit is therefore the connected
    one, working on those same fields. *)
Theorem submit_twice_connects env env' props w w1 :
  isGoogleConnected w = false ->
  signIn env (loading w) = (Ok true, w1) ->
  let w' := snd (handleSubmit env props w) in
  isGoogleConnected w' = true
  /\ isLoading w' = false
  /\ formData w' = formData w
  /\ handleSubmit env' props w' = submitEvent env' props (formData w) w'.
Proof.
  intros H S w'. subst w'.
  rewrite (handleSubmit_not_connected env props w H).
  assert (E : handleGoogleConnect env w = (Ok tt, connectedAs true w1)).
  { unfold handleGoogleConnect, tryFinally, connectedAs. unfold loading in S.
    run. rewrite S. reflexivity. }
  destruct (kp_signIn env (loading w)) as [(KF & _) _]. rewrite S in KF. simpl in KF.
  rewrite E. simpl. repeat split; try assumption.
  rewrite handleSubmit_connected by reflexivity. simpl. now rewrite KF.
Qed.

Lemma submit_twice_connects_witness :
  isGoogleConnected
    (snd (handleSubmit (happyEnv 0) newEventProps
            {| isInitialized := true; formData := sampleForm; isLoading := false;
               isGoogleConnected := false; log := [] |}))
  = true.
Proof.
  apply (submit_twice_connects (happyEnv 0) (happyEnv 0) newEventProps
           {| isInitialized := true; formData := sampleForm; isLoading := false;
              isGoogleConnected := false; log := [] |}
           (snd (signIn (happyEnv 0)
                   (loading {| isInitialized := true; formData := sampleForm;
                               isLoading := false; isGoogleConnected := false;
                               log := [] |}))));
    reflexivity.
Defined.
